(** * FAC data integration pipeline: a shallow embedding of [run_pipeline.py]

    The pipeline reads paginated JSON records from a remote API, stages
    them in an embedded table store, joins the staged relations on a key
    and exports the result.  The embedding follows the Python source
    function by function:

    - Python dictionaries of fixed shape are records, the [settings]
      dictionary (whose keys the code tests for) is a [gmap];
    - a [pandas.DataFrame] is a list of column names and a list of rows,
      each column holding its cells the way the column's dtype holds
      them;
    - a relation of the store has a name and a type for every column;
    - exceptions are an [outcome] type, the mutable world (requests sent,
      tables of the store, file system) is passed explicitly;
    - the generator [fetch_data_stream] is a step function on its
      suspended state, driven by the [for] loop of [process_source];
    - SQL text assembled at run time is kept as its sequence of tokens;
    - logging, the memory tracker and the calls to the garbage collector
      change nothing of this state and are left out.

    What the source leaves to the libraries installed with it (the
    version of pandas, the store's reading of a text as a number) is a
    parameter, [Libraries]. *)

From Stdlib Require Import ZArith Lia Ascii String List.
From stdpp Require Import gmap strings list pretty.

Set Default Proof Using "Type".
#[local] Set Warnings "-clear-no-such-hyp".
Local Open Scope string_scope.
Local Open Scope Z_scope.
Local Open Scope list_scope.

(** ** Values *)

(** A cell of a data frame or of a relation: a JSON scalar as Python
    holds it, the [nan] with which pandas fills a field that a record
    does not have, or the float that pandas makes of a whole number in a
    column with missing cells.  Numbers are whole numbers that a 64-bit
    float holds exactly (magnitude below 2^53), as an integer ([VInt]) or
    as a float ([VFloat], printed [7.0]); other fractions and nested
    values are outside the embedding. *)
Inductive value :=
| VNull
| VNaN
| VBool (b : bool)
| VInt (z : Z)
| VFloat (z : Z)
| VStr (s : string).

#[global] Instance value_eq_dec : EqDecision value.
Proof. solve_decision. Defined.

(** Python's [str] on a cell. *)
Definition py_str (v : value) : string :=
  match v with
  | VNull => "None"
  | VNaN => "nan"
  | VBool true => "True"
  | VBool false => "False"
  | VInt z => pretty z
  | VFloat z => pretty z +:+ ".0"
  | VStr s => s
  end.

Definition is_text (v : value) : bool :=
  match v with VStr _ => true | _ => false end.

Definition is_int (v : value) : bool :=
  match v with VInt _ => true | _ => false end.

Definition is_float (v : value) : bool :=
  match v with VFloat _ => true | _ => false end.

Definition is_number (v : value) : bool := is_int v || is_float v.

Definition is_bool (v : value) : bool :=
  match v with VBool _ => true | _ => false end.

(** [None] and [nan]: what pandas takes for a missing cell. *)
Definition is_missing (v : value) : bool :=
  match v with VNull | VNaN => true | _ => false end.

(** ** The libraries *)

(** The column types of the store that the values above can have. *)
Inductive sql_type := BOOLEAN | INTEGER | BIGINT | DOUBLE | VARCHAR.

#[global] Instance sql_type_eq_dec : EqDecision sql_type.
Proof. solve_decision. Defined.

(** What the source does not decide and the installed libraries do:
    - [pandas_3]: pandas is of version 3 or later, where a column of
      texts has a string dtype of its own (a [None] in it becomes [nan])
      and [astype(str)] leaves a missing cell missing; before that
      version such a column holds Python objects and [astype(str)] makes
      the texts ['nan'] and ['None'] of missing cells;
    - [text_as ty s]: the value the store reads out of the text [s] when
      it has to convert it to the type [ty], or nothing when it raises
      its conversion error. *)
Class Libraries := {
  pandas_3 : bool;
  text_as : sql_type -> string -> option value
}.

(** ** Configuration *)

(** A scalar of the YAML configuration file. *)
Inductive yaml :=
| YNull
| YBool (b : bool)
| YInt (z : Z)
| YStr (s : string).

(** Python truthiness of a configuration scalar. *)
Definition truthy (y : yaml) : bool :=
  match y with
  | YNull => false
  | YBool b => b
  | YInt z => negb (z =? 0)%Z
  | YStr s => negb (String.eqb s "")
  end.

(** [source_config['api_params']]: the offset [from], the page size [size]
    and whatever other query parameters the source carries. *)
Record api_params := {
  from_ : Z;
  size : Z;
  other_params : list (string * yaml)
}.

Record source_config := {
  name : string;
  url : string;
  source_api_params : api_params
}.

(** The loaded configuration: the [settings] dictionary and the ordered
    list of [sources].  A configuration file without one of these two
    sections is outside the embedding. *)
Record config := {
  settings : gmap string yaml;
  sources : list source_config
}.

(** ** Exceptions and outcomes *)

(** What the table store reports when it refuses a statement. *)
Inductive duckdb_error :=
| ParserException
| CatalogTableMissing (table : string)
| CatalogTableExists (table : string)
| CatalogPragmaMissing (pragma : string)
| CatalogSettingMissing (setting : string)
| BinderColumnCount (table : string) (table_columns supplied : nat)
| BinderUsingColumn (column : string)
| ConversionException
| InvalidInputNoColumns
| IOException (path : list string).

Inductive exn :=
| ValueError (msg : string)
| KeyError (key : string)
| IndexError
| TypeError
| RequestException (detail : string)
| DuckDBError (e : duckdb_error)
| OSError (path : list string).

(** The result of running a piece of the pipeline: a value, a raised
    exception, or no result because the loop did not end within the
    steps granted. *)
Inductive outcome (A : Type) :=
| Ok (a : A)
| Raise (e : exn)
| Diverge.
Arguments Ok {A} a.
Arguments Raise {A} e.
Arguments Diverge {A}.

(** The only error the pipeline itself raises for a bad configuration is
    the [ValueError] of [_validate_config]. *)
Definition is_configuration_error (e : exn) : bool :=
  match e with ValueError _ => true | _ => false end.

(** ** Data frames *)

Definition record := list (string * value).

Record DataFrame := {
  columns : list string;
  data : list (list value)
}.

(** [len(df)] *)
Definition len (df : DataFrame) : nat := length (data df).

Fixpoint record_get (c : string) (r : record) : value :=
  match r with
  | [] => VNaN
  | (k, v) :: r => if decide (k = c) then v else record_get c r
  end.

(** Column names in order of first appearance over the records. *)
Fixpoint add_keys (seen : list string) (ks : list string) : list string :=
  match ks with
  | [] => seen
  | k :: ks => add_keys (if decide (k ∈ seen) then seen else seen ++ [k]) ks
  end.

Definition union_keys (rs : list record) : list string :=
  fold_left (fun seen r => add_keys seen (map fst r)) rs [].

(** The dtype that pandas gives a column built from Python objects. *)
Inductive dtype := int64 | float64 | bool_ | str_ | object.

(** The dtype of a column, from the objects that go into it ([nan] where
    a record lacks the field): integers alone make an integer column;
    numbers, with or without missing cells, a float column; booleans
    alone a boolean column; everything else stays a column of Python
    objects, or, for texts with or without missing cells under pandas 3,
    becomes a string column. *)
Definition infer_dtype `{Libraries} (vs : list value) : dtype :=
  if forallb is_int vs then int64
  else if forallb (fun v => is_number v || is_missing v) vs
          && existsb is_number vs then float64
  else if forallb is_bool vs then bool_
  else if forallb (fun v => is_text v || is_missing v) vs
          && existsb is_text vs && pandas_3 then str_
  else object.

(** A cell as a column of the given dtype holds it: in a float column an
    integer is a float and [None] is [nan]; in a string column [None] is
    [nan]. *)
Definition hold (d : dtype) (v : value) : value :=
  match v with
  | VInt z => match d with float64 => VFloat z | _ => v end
  | VNull => match d with float64 | str_ => VNaN | _ => v end
  | _ => v
  end.

(** [pd.DataFrame(results)] for a list of JSON objects. *)
Definition pd_DataFrame `{Libraries} (rs : list record) : DataFrame :=
  let cols := union_keys rs in
  {| columns := cols;
     data := map (fun r =>
                    map (fun c => hold (infer_dtype (map (record_get c) rs))
                                       (record_get c r))
                        cols)
                 rs |}.

(** [astype(str)] on one cell: the cell becomes the text [str] gives,
    except that pandas 3 leaves a missing cell missing. *)
Definition normalize `{Libraries} (v : value) : value :=
  if is_missing v && pandas_3 then VNaN else VStr (py_str v).

(** [df[c] = df[c].astype(str)] *)
Definition astype_str `{Libraries} (c : string) (df : DataFrame) : DataFrame :=
  {| columns := columns df;
     data := map (fun row =>
                    zip_with (fun col v =>
                                if decide (col = c) then normalize v else v)
                             (columns df) row)
                 (data df) |}.

(** The values of column [c], one per row. *)
Definition column (c : string) (df : DataFrame) : list value :=
  map (fun row => record_get c (zip (columns df) row)) (data df).

(** ** The remote source *)

Record request := {
  req_url : string;
  req_params : api_params;
  req_timeout : yaml
}.

(** What [requests.get], [raise_for_status] and [response.json()] give:
    a failure of transport, status or decoding, or the decoded body with
    its [results] entry ([None] when the entry is missing or null). *)
Inductive response :=
| HttpFailure (detail : string)
| JsonBody (results : option (list record)).

(** ** The staging store *)

(** A relation: its columns by name and type, and its rows. *)
Record relation := {
  schema : list string;
  types : list sql_type;
  tuples : list (list value)
}.

Definition nrows (t : relation) : nat := length (tuples t).

(** A missing cell of a data frame is a NULL of the store. *)
Definition to_sql (v : value) : value :=
  match v with VNaN => VNull | _ => v end.

(** A cell of a row by position; a row that is too short reads as
    missing. *)
Definition cell (i : nat) (row : list value) : value := default VNull (row !! i).

(** The type the store finds for a column of a data frame: that of its
    cells which are not NULL.  Texts (alone or among other objects) make
    a text column, booleans alone a boolean column, numbers a column of
    floats if one of them is a float and of integers otherwise.  A column
    without any such cell has no type of its own. *)
Definition column_type (vs : list value) : option sql_type :=
  let present := List.filter (fun v => negb (is_missing v)) vs in
  match present with
  | [] => None
  | _ =>
    if existsb is_text present then Some VARCHAR
    else if forallb is_bool present then Some BOOLEAN
    else if existsb is_float present then Some DOUBLE
    else Some BIGINT
  end.

(** A cell read into a column of type [ty]: an object of another kind in
    a text column is read as its Python text, a boolean among numbers as
    0 or 1. *)
Definition read_cell (ty : sql_type) (v : value) : value :=
  match v with
  | VNull | VNaN => VNull
  | VStr _ => v
  | VBool b =>
    match ty with
    | VARCHAR => VStr (py_str v)
    | BOOLEAN => v
    | DOUBLE => VFloat (Z.b2z b)
    | INTEGER | BIGINT => VInt (Z.b2z b)
    end
  | VInt z =>
    match ty with
    | VARCHAR => VStr (py_str v)
    | DOUBLE => VFloat z
    | _ => v
    end
  | VFloat z =>
    match ty with
    | VARCHAR => VStr (py_str v)
    | _ => v
    end
  end.

(** The types of the columns of a data frame; a column that only has
    missing cells is taken as a column of integers when a table is made
    of it. *)
Definition column_types (chunk : DataFrame) : list sql_type :=
  map (fun i => default INTEGER
                        (column_type (map (cell i) (data chunk))))
      (seq 0 (length (columns chunk))).

(** The store scanning a data frame named in a statement. *)
Definition scan (chunk : DataFrame) : relation :=
  let tys := column_types chunk in
  {| schema := columns chunk;
     types := tys;
     tuples := map (fun row => zip_with read_cell tys row) (data chunk) |}.

Definition in_int32 (z : Z) : bool := (- 2 ^ 31 <=? z) && (z <? 2 ^ 31).


(** The store's conversion of a value to the type [ty] of a column that
    receives it, or nothing when the value does not convert.  NULL is of
    every type; how a text reads as a value of another type is left to
    [text_as]. *)
Definition convert `{Libraries} (ty : sql_type) (v : value) : option value :=
  match v with
  | VNull | VNaN => Some VNull
  | VBool b =>
    match ty with
    | BOOLEAN => Some v
    | INTEGER | BIGINT => Some (VInt (Z.b2z b))
    | DOUBLE => Some (VFloat (Z.b2z b))
    | VARCHAR => Some (VStr (if b then "true" else "false"))
    end
  | VInt z =>
    match ty with
    | BOOLEAN => Some (VBool (negb (z =? 0)))
    | INTEGER => if in_int32 z then Some v else None
    | BIGINT => Some v
    | DOUBLE => Some (VFloat z)
    | VARCHAR => Some (VStr (pretty z))
    end
  | VFloat z =>
    match ty with
    | BOOLEAN => Some (VBool (negb (z =? 0)))
    | INTEGER => if in_int32 z then Some (VInt z) else None
    | BIGINT => Some (VInt z)
    | DOUBLE => Some v
    | VARCHAR => Some (VStr (pretty z +:+ ".0"))
    end
  | VStr s =>
    match ty with
    | VARCHAR => Some v
    | _ => text_as ty s
    end
  end.

(** A row converted to the types of the columns, position by position. *)
Fixpoint convert_row `{Libraries} (tys : list sql_type) (row : list value)
  : option (list value) :=
  match tys, row with
  | ty :: tys, v :: row =>
    match convert ty v, convert_row tys row with
    | Some v', Some row' => Some (v' :: row')
    | _, _ => None
    end
  | _, _ => Some []
  end.

Fixpoint convert_rows `{Libraries} (tys : list sql_type) (rows : list (list value))
  : option (list (list value)) :=
  match rows with
  | [] => Some []
  | row :: rows =>
    match convert_row tys row, convert_rows tys rows with
    | Some row', Some rows' => Some (row' :: rows')
    | _, _ => None
    end
  end.




(** [DROP TABLE IF EXISTS t] *)
Definition drop_table_if_exists (t : string) (tables : gmap string relation)
  : gmap string relation :=
  delete t tables.

(** [CREATE TABLE t AS SELECT * FROM chunk] *)
Definition create_table_as_chunk (t : string) (chunk : DataFrame)
    (tables : gmap string relation) : duckdb_error + gmap string relation :=
  match columns chunk with
  | [] => inl InvalidInputNoColumns
  | _ =>
    match tables !! t with
    | Some _ => inl (CatalogTableExists t)
    | None => inr (<[t := scan chunk]> tables)
    end
  end.

(** [INSERT INTO t SELECT * FROM chunk]: the columns of the chunk are
    matched with the columns of the table by position, and every value
    is converted to the type of the column that receives it. *)
Definition insert_into_chunk `{Libraries} (t : string) (chunk : DataFrame)
    (tables : gmap string relation) : duckdb_error + gmap string relation :=
  match columns chunk with
  | [] => inl InvalidInputNoColumns
  | _ =>
    match tables !! t with
    | None => inl (CatalogTableMissing t)
    | Some r =>
      if decide (length (schema r) = length (columns chunk)) then
        match convert_rows (types r) (tuples (scan chunk)) with
        | Some rows =>
          inr (<[t := {| schema := schema r;
                         types := types r;
                         tuples := tuples r ++ rows |}]> tables)
        | None => inl ConversionException
        end
      else inl (BinderColumnCount t (length (schema r)) (length (columns chunk)))
    end
  end.

(** [PRAGMA name]: a call of the pragma function of that name.  These
    are the pragma functions without argument of the store's catalog;
    none of them touches a relation. *)
Definition pragma_functions : list string :=
  ["database_list"; "database_size"; "show_tables"; "show_tables_expanded";
   "show_databases"; "collations"; "functions"; "version"; "platform";
   "user_agent"; "metadata_info"; "force_checkpoint";
   "enable_profiling"; "enable_profile"; "disable_profiling"; "disable_profile";
   "enable_progress_bar"; "disable_progress_bar";
   "enable_print_progress_bar"; "disable_print_progress_bar";
   "enable_optimizer"; "disable_optimizer";
   "enable_verification"; "disable_verification";
   "enable_object_cache"; "disable_object_cache";
   "enable_checkpoint_on_shutdown"; "disable_checkpoint_on_shutdown";
   "verify_parallelism"; "verify_external"; "verify_serializer"].

Definition pragma (name : string) (tables : gmap string relation)
  : duckdb_error + gmap string relation :=
  if bool_decide (name ∈ pragma_functions) then inr tables
  else inl (CatalogPragmaMissing name).

(** [PRAGMA name='value']: the option of that name is set. *)
Definition store_options : list string :=
  ["memory_limit"; "max_memory"; "threads"; "worker_threads";
   "temp_directory"; "max_temp_directory_size"; "default_order";
   "default_null_order"; "preserve_insertion_order"; "checkpoint_threshold";
   "wal_autocheckpoint"; "enable_progress_bar"; "enable_object_cache"].

Definition pragma_set (name value : string) (tables : gmap string relation)
  : duckdb_error + gmap string relation :=
  if bool_decide (name ∈ store_options) then inr tables
  else inl (CatalogSettingMissing name).

(** ** The statement language of the store

    The merge statement is assembled at run time by string concatenation.
    Its text is kept as the sequence of lexical tokens that the f-strings
    splice together.  The source names and the join key are taken to be
    SQL identifiers: spliced into the text, each of them is one
    identifier token. *)

Inductive token :=
| CREATE | TABLE | AS | WITH | SELECT | STAR | FROM
| LEFT | JOIN | USING | LPAREN | RPAREN
| Ident (s : string).

(** [SELECT * FROM t LEFT JOIN t1 USING (k1) LEFT JOIN t2 USING (k2) ...] *)
Record select_stmt := {
  sel_from : string;
  sel_joins : list (string * string)
}.

(** A query: an optional common table expression [WITH c AS (select)]
    followed by the select statement that the query returns. *)
Record query := {
  q_with : option (string * select_stmt);
  q_body : select_stmt
}.

Inductive statement :=
| CreateTableAs (t : string) (q : query).

Fixpoint parse_joins (ts : list token)
  : option (list (string * string) * list token) :=
  match ts with
  | LEFT :: JOIN :: Ident t :: USING :: LPAREN :: Ident k :: RPAREN :: rest =>
    match parse_joins rest with
    | Some (js, rest') => Some ((t, k) :: js, rest')
    | None => None
    end
  | LEFT :: _ => None
  | _ => Some ([], ts)
  end.

Definition parse_select (ts : list token) : option (select_stmt * list token) :=
  match ts with
  | SELECT :: STAR :: FROM :: Ident t :: rest =>
    match parse_joins rest with
    | Some (js, rest') => Some ({| sel_from := t; sel_joins := js |}, rest')
    | None => None
    end
  | _ => None
  end.

(** A [WITH] clause must be followed by the select statement it serves. *)
Definition parse_query (ts : list token) : option (query * list token) :=
  match ts with
  | WITH :: Ident c :: AS :: LPAREN :: rest =>
    match parse_select rest with
    | Some (s, RPAREN :: rest') =>
      match parse_select rest' with
      | Some (body, rest'') =>
        Some ({| q_with := Some (c, s); q_body := body |}, rest'')
      | None => None
      end
    | _ => None
    end
  | _ =>
    match parse_select ts with
    | Some (body, rest) => Some ({| q_with := None; q_body := body |}, rest)
    | None => None
    end
  end.

Definition parse_statement (ts : list token) : option statement :=
  match ts with
  | CREATE :: TABLE :: Ident t :: AS :: rest =>
    match parse_query rest with
    | Some (q, []) => Some (CreateTableAs t q)
    | _ => None
    end
  | _ => None
  end.

(** *** Evaluation *)

(** The store compares identifiers without regard to case. *)
Definition lower (a : ascii) : ascii :=
  let n := nat_of_ascii a in
  if (65 <=? n)%nat && (n <=? 90)%nat then ascii_of_nat (n + 32) else a.

Fixpoint fold_case (s : string) : string :=
  match s with
  | EmptyString => EmptyString
  | String a s => String (lower a) (fold_case s)
  end.

(** The position of the column named [c]. *)
Fixpoint index_of (c : string) (cols : list string) : option nat :=
  match cols with
  | [] => None
  | c' :: cols =>
    if decide (fold_case c' = fold_case c) then Some 0%nat
    else S <$> index_of c cols
  end.

(** The type in which the store compares a column of type [a] with one
    of type [b]: a text is read as a value of the other type, a number
    of the narrower type as one of the wider. *)
Definition common_type (a b : sql_type) : sql_type :=
  match a, b with
  | VARCHAR, t | t, VARCHAR => t
  | DOUBLE, _ | _, DOUBLE => DOUBLE
  | BIGINT, _ | _, BIGINT => BIGINT
  | INTEGER, _ | _, INTEGER => INTEGER
  | BOOLEAN, BOOLEAN => BOOLEAN
  end.

(** Equality of the join condition: NULL matches nothing. *)
Definition sql_eq (a b : value) : bool :=
  match a, b with
  | VNull, _ | _, VNull => false
  | _, _ => bool_decide (a = b)
  end.

(** Equality of two keys in the type [ty] of the comparison. *)
Definition key_eq `{Libraries} (ty : sql_type) (a b : value) : bool :=
  match convert ty a, convert ty b with
  | Some a', Some b' => sql_eq a' b'
  | _, _ => false
  end.

(** The rows a left row contributes to [l LEFT JOIN r USING (k)]: one per
    matching right row ([matches]), or itself padded with NULLs when
    nothing matches.  [i] and [j] are the positions of [k] on the two
    sides, [ty] the type in which the keys are compared. *)
Definition matches `{Libraries} (ty : sql_type) (i j : nat) (r : relation)
    (lrow : list value) : list (list value) :=
  List.filter (fun rrow => key_eq ty (cell i lrow) (cell j rrow)) (tuples r).

Definition join_row `{Libraries} (ty : sql_type) (i j : nat) (r : relation)
    (lrow : list value) : list (list value) :=
  match matches ty i j r lrow with
  | [] => [lrow ++ replicate (length (schema r) - 1)%nat VNull]
  | ms => map (fun rrow => lrow ++ delete j rrow) ms
  end.

(** Every key of column [i] converts to the type of the comparison. *)
Definition keys_convert `{Libraries} (ty : sql_type) (i : nat) (t : relation)
  : bool :=
  forallb (fun row => bool_decide (is_Some (convert ty (cell i row)))) (tuples t).

(** [l LEFT JOIN r USING (k)]: [k] must be a column of both sides; the
    result has the columns of [l], then those of [r] without [k].  When
    the two key columns differ in type, the keys are compared in their
    common type, and a key that does not convert to it is the store's
    conversion error. *)
Definition left_join `{Libraries} (k : string) (l r : relation)
  : duckdb_error + relation :=
  match index_of k (schema l), index_of k (schema r) with
  | Some i, Some j =>
    let ty := common_type (default VARCHAR (types l !! i))
                          (default VARCHAR (types r !! j)) in
    if keys_convert ty i l && keys_convert ty j r then
      inr {| schema := schema l ++ delete j (schema r);
             types := types l ++ delete j (types r);
             tuples := flat_map (join_row ty i j r) (tuples l) |}
    else inl ConversionException
  | _, _ => inl (BinderUsingColumn k)
  end.

Definition table_ref (tables : gmap string relation) (t : string)
  : duckdb_error + relation :=
  match tables !! t with
  | Some r => inr r
  | None => inl (CatalogTableMissing t)
  end.

(** The joins of a select statement are bound and applied left to right. *)
Fixpoint eval_joins `{Libraries} (tables : gmap string relation) (acc : relation)
    (js : list (string * string)) : duckdb_error + relation :=
  match js with
  | [] => inr acc
  | (t, k) :: js =>
    match table_ref tables t with
    | inl e => inl e
    | inr r =>
      match left_join k acc r with
      | inl e => inl e
      | inr acc' => eval_joins tables acc' js
      end
    end
  end.

Definition eval_select `{Libraries} (tables : gmap string relation)
    (s : select_stmt) : duckdb_error + relation :=
  match table_ref tables (sel_from s) with
  | inl e => inl e
  | inr r => eval_joins tables r (sel_joins s)
  end.

Definition eval_query `{Libraries} (tables : gmap string relation) (q : query)
  : duckdb_error + relation :=
  match q_with q with
  | None => eval_select tables (q_body q)
  | Some (c, s) =>
    match eval_select tables s with
    | inl e => inl e
    | inr rc => eval_select (<[c := rc]> tables) (q_body q)
    end
  end.

Definition run_statement `{Libraries} (s : statement)
    (tables : gmap string relation) : duckdb_error + gmap string relation :=
  match s with
  | CreateTableAs t q =>
    match eval_query tables q with
    | inl e => inl e
    | inr r =>
      match tables !! t with
      | Some _ => inl (CatalogTableExists t)
      | None => inr (<[t := r]> tables)
      end
    end
  end.

(** [conn.execute(text)]: the text is parsed, then run. *)
Definition execute `{Libraries} (text : list token)
    (tables : gmap string relation) : duckdb_error + gmap string relation :=
  match parse_statement text with
  | None => inl ParserException
  | Some s => run_statement s tables
  end.
(** ** The file system *)

(** A path is the list of its components, as [pathlib] keeps it. *)
Definition path := list string.

Fixpoint split_slash (cur : string) (s : string) : list string :=
  match s with
  | EmptyString => [cur]
  | String c s' =>
    if Ascii.eqb c "/"%char then cur :: split_slash "" s'
    else split_slash (cur +:+ String c "") s'
  end.

(** [Path(s)]: empty and [.] components are dropped, a leading slash is
    the root component. *)
Definition Path (s : string) : path :=
  let parts :=
    List.filter (fun p => negb (String.eqb p "" || String.eqb p "."))
                (split_slash "" s) in
  if String.prefix "/" s then "/" :: parts else parts.

Definition parent (p : path) : path := removelast p.

Definition basename (p : path) : string := List.last p "".

Definition ends_with (suffix s : string) : bool :=
  String.prefix (String.rev suffix) (String.rev s).

Record filesystem := {
  dirs : gset path;
  files : gset path
}.

(** [p] is an entry of directory [d]. *)
Definition child_of (d p : path) : Prop := p ≠ [] ∧ parent p = d.

#[global] Instance child_of_dec d p : Decision (child_of d p).
Proof. unfold child_of. apply _. Defined.

Definition entries (d : path) (fs : filesystem) : gset path :=
  filter (child_of d) (dirs fs ∪ files fs).

(** The working directory and the root always exist. *)
Definition dir_exists (d : path) (fs : filesystem) : bool :=
  bool_decide (d = [] ∨ d = ["/"] ∨ d ∈ dirs fs).

(** [p.exists()] *)
Definition path_exists (p : path) (fs : filesystem) : bool :=
  dir_exists p fs || bool_decide (p ∈ files fs).

(** [p.mkdir(exist_ok=True)] *)
Definition mkdir_exist_ok (p : path) (fs : filesystem) : exn + filesystem :=
  if dir_exists p fs then inr fs
  else if bool_decide (p ∈ files fs) then inl (OSError p)
  else if dir_exists (parent p) fs
       then inr {| dirs := {[p]} ∪ dirs fs; files := files fs |}
       else inl (OSError p).

(** [p.unlink()] *)
Definition unlink (p : path) (fs : filesystem) : exn + filesystem :=
  if bool_decide (p ∈ files fs)
  then inr {| dirs := dirs fs; files := files fs ∖ {[p]} |}
  else inl (OSError p).

(** [p.rmdir()]: only an empty directory can be removed. *)
Definition rmdir (p : path) (fs : filesystem) : exn + filesystem :=
  if bool_decide (p ∈ dirs fs ∧ entries p fs = ∅)
  then inr {| dirs := dirs fs ∖ {[p]}; files := files fs |}
  else inl (OSError p).

(** [d.glob('*.csv')]: the entries of [d] whose name ends in [.csv], in
    the order in which the directory lists them (here: the order of the
    set's elements). *)
Definition glob_csv (d : path) (fs : filesystem) : list path :=
  elements (filter (fun p => ends_with ".csv" (basename p) = true) (entries d fs)).

(** Creating (or overwriting) a regular file, as the store does for its
    database file and for the export. *)
Definition write_file (p : path) (fs : filesystem) : duckdb_error + filesystem :=
  if bool_decide (p ≠ [] ∧ p ∉ dirs fs) && dir_exists (parent p) fs
  then inr {| dirs := dirs fs; files := {[p]} ∪ files fs |}
  else inl (IOException p).


(** ** The state of a run *)

(** The requests sent so far (oldest first), the relations held in the
    store's database file, and the file system.  The write-ahead file
    that the store keeps beside its database file from a write until the
    connection is closed is the store's own and is not part of [fs]. *)
Record state := {
  sent : list request;
  tables : gmap string relation;
  fs : filesystem
}.

Definition set_sent (s : list request) (st : state) : state :=
  {| sent := s; tables := tables st; fs := fs st |}.

Definition set_tables (t : gmap string relation) (st : state) : state :=
  {| sent := sent st; tables := t; fs := fs st |}.

Definition set_fs (f : filesystem) (st : state) : state :=
  {| sent := sent st; tables := tables st; fs := f |}.

(** The pipeline object: [self.config], [self.temp_dir], [self.db_path]. *)
Record FACDataPipeline := {
  self_config : config;
  temp_dir : path;
  db_path : path
}.

(** ** Computations over the state of a run *)

Definition M (A : Type) : Type := state -> outcome A * state.

Definition ret {A} (a : A) : M A := fun st => (Ok a, st).

Definition raise {A} (e : exn) : M A := fun st => (Raise e, st).

Definition diverge {A} : M A := fun st => (Diverge, st).

Definition bind {A B} (m : M A) (k : A -> M B) : M B :=
  fun st =>
    match m st with
    | (Ok a, st') => k a st'
    | (Raise e, st') => (Raise e, st')
    | (Diverge, st') => (Diverge, st')
    end.

Notation "x <- m ;; k" := (bind m (fun x => k))
  (at level 100, m at next level, right associativity).
Notation "m ;; k" := (bind m (fun _ => k))
  (at level 100, right associativity).

(** [try: body finally: final].  An exception raised by [final] replaces
    the outcome of [body]; a body that does not end never reaches it. *)
Definition try_finally {A} (body : M A) (final : M unit) : M A :=
  fun st =>
    match body st with
    | (Diverge, st') => (Diverge, st')
    | (r, st') =>
      match final st' with
      | (Ok _, st'') => (r, st'')
      | (Raise e, st'') => (Raise e, st'')
      | (Diverge, st'') => (Diverge, st'')
      end
    end.

(** A statement run on the connection. *)
Definition conn_execute
    (stmt : gmap string relation -> duckdb_error + gmap string relation) : M unit :=
  fun st =>
    match stmt (tables st) with
    | inl e => (Raise (DuckDBError e), st)
    | inr t => (Ok tt, set_tables t st)
    end.

(** An operation of [pathlib] on the file system. *)
Definition on_fs (op : filesystem -> exn + filesystem) : M unit :=
  fun st =>
    match op (fs st) with
    | inl e => (Raise e, st)
    | inr f => (Ok tt, set_fs f st)
    end.

(** [config['settings'][key]] *)
Definition setting (cfg : config) (key : string) : M yaml :=
  match settings cfg !! key with
  | Some y => ret y
  | None => raise (KeyError key)
  end.

(** [Path(y)] for a configuration scalar. *)
Definition as_path (y : yaml) : M path :=
  match y with
  | YStr s => ret (Path s)
  | _ => raise TypeError
  end.

(** A configuration scalar spliced into an f-string. *)
Definition yaml_str (y : yaml) : string :=
  match y with
  | YNull => "None"
  | YBool true => "True"
  | YBool false => "False"
  | YInt z => pretty z
  | YStr s => s
  end.

(** ** Initialisation *)

Definition required_settings : list string :=
  ["output_filename"; "download_directory"; "primary_join_key"].

Definition _validate_config (cfg : config) : M unit :=
  if forallb (fun key => bool_decide (is_Some (settings cfg !! key)))
             required_settings
  then ret tt
  else raise (ValueError "Missing required settings: ['output_filename', 'download_directory', 'primary_join_key']").

(** [_load_config]: [loaded] is what [yaml.safe_load] read from the
    configuration file. *)
Definition _load_config (loaded : config) : M config :=
  _validate_config loaded ;;
  ret loaded.

(** [duckdb.connect(str(db_path))]: an existing database file is opened
    with the relations it holds, otherwise an empty one is created. *)
Definition duckdb_connect (db : path) : M unit :=
  fun st =>
    if bool_decide (db ∈ files (fs st)) then (Ok tt, st)
    else match write_file db (fs st) with
         | inl e => (Raise (DuckDBError e), st)
         | inr f => (Ok tt, {| sent := sent st; tables := ∅; fs := f |})
         end.

(** [FACDataPipeline.__init__] *)
Definition __init__ (loaded : config) : M FACDataPipeline :=
  cfg <- _load_config loaded ;;
  d <- setting cfg "download_directory" ;;
  dir <- as_path d ;;
  on_fs (mkdir_exist_ok dir) ;;
  let db := dir ++ ["temp.duckdb"] in
  duckdb_connect db ;;
  conn_execute (pragma "enable_compression") ;;
  conn_execute (pragma_set "memory_limit" "4GB") ;;
  ret {| self_config := cfg; temp_dir := dir; db_path := db |}.

Section Pipeline.

Context `{Libraries}.

(** The remote API: its answer to a request, given the requests it has
    received before. *)
Variable server : list request -> request -> response.

(** ** The paginated reader *)

(** Where the generator [fetch_data_stream] is suspended: before its
    first request, at its [yield] (with the length of the page just
    yielded), or finished. *)
Inductive gen_state :=
| AtLoopHead (params : api_params)
| AfterYield (params : api_params) (n : nat)
| Finished.

Inductive gen_event :=
| Yield (df : DataFrame) (g : gen_state)
| StopIteration.

(** [requests.get(...)], [raise_for_status()], [response.json()] *)
Definition requests_get (req : request) : M response :=
  fun st => (Ok (server (sent st) req), set_sent (sent st ++ [req]) st).

(** One turn of the [while True] loop, from its head to the [yield] or
    the first [break]. *)
Definition fetch_page (self : FACDataPipeline) (source_config : source_config)
    (params : api_params) : M gen_event :=
  timeout <- setting (self_config self) "api_timeout_seconds" ;;
  resp <- requests_get {| req_url := url source_config;
                          req_params := params;
                          req_timeout := timeout |} ;;
  match resp with
  | HttpFailure detail => raise (RequestException detail)
  | JsonBody None | JsonBody (Some []) => ret StopIteration
  | JsonBody (Some results) =>
    let df := pd_DataFrame results in
    let df := if decide ("report_id" ∈ columns df)
              then astype_str "report_id" df else df in
    ret (Yield df (AfterYield params (length results)))
  end.

(** [params['from'] += params['size']] *)
Definition advance (params : api_params) : api_params :=
  {| from_ := from_ params + size params;
     size := size params;
     other_params := other_params params |}.

(** [next(gen)]: resuming after a [yield] first updates the pagination
    and tests for a short page. *)
Definition fetch_data_stream_next (self : FACDataPipeline)
    (source_config : source_config) (g : gen_state) : M gen_event :=
  match g with
  | AtLoopHead params => fetch_page self source_config params
  | AfterYield params n =>
    let params := advance params in
    if Z.of_nat n <? size params then ret StopIteration
    else fetch_page self source_config params
  | Finished => ret StopIteration
  end.

(** [fetch_data_stream(source_config)]: the generator before its first
    [next], holding a copy of the source's [api_params]. *)
Definition fetch_data_stream (source_config : source_config) : gen_state :=
  AtLoopHead (source_api_params source_config).

(** ** The loader *)

(** The body of the [for chunk in ...] loop, up to the counter update. *)
Definition load_chunk (table_name : string) (first_chunk : bool)
    (chunk : DataFrame) : M unit :=
  if first_chunk then
    conn_execute (fun t => inr (drop_table_if_exists table_name t)) ;;
    conn_execute (create_table_as_chunk table_name chunk)
  else
    conn_execute (insert_into_chunk table_name chunk).

(** [list(gen)]: the chunks the generator yields when it is run to its
    end on its own. *)
Fixpoint drain (fuel : nat) (self : FACDataPipeline)
    (source_config : source_config) (g : gen_state) : M (list DataFrame) :=
  match fuel with
  | O => diverge
  | S fuel =>
    ev <- fetch_data_stream_next self source_config g ;;
    match ev with
    | StopIteration => ret []
    | Yield chunk g' =>
      chunks <- drain fuel self source_config g' ;;
      ret (chunk :: chunks)
    end
  end.

(** The [for] loop of [process_source] over the generator [g], with the
    loop's variables [first_chunk] and [rows_processed]; it returns the
    final [rows_processed]. *)
Fixpoint for_chunks (fuel : nat) (self : FACDataPipeline)
    (source_config : source_config) (g : gen_state)
    (first_chunk : bool) (rows_processed : nat) : M nat :=
  match fuel with
  | O => diverge
  | S fuel =>
    ev <- fetch_data_stream_next self source_config g ;;
    match ev with
    | StopIteration => ret rows_processed
    | Yield chunk g' =>
      load_chunk (name source_config) first_chunk chunk ;;
      for_chunks fuel self source_config g' false
                 (rows_processed + len chunk)%nat
    end
  end.

(** [process_source]; the memory tracker around the loop only logs. *)
Definition process_source (fuel : nat) (self : FACDataPipeline)
    (source_config : source_config) : M unit :=
  for_chunks fuel self source_config (fetch_data_stream source_config) true 0%nat ;;
  ret tt.

(** ** Merge, export and cleanup *)

(** [for source in self.config['sources']: self.process_source(source)] *)
Fixpoint for_sources (fuel : nat) (self : FACDataPipeline)
    (srcs : list source_config) : M unit :=
  match srcs with
  | [] => ret tt
  | source :: srcs =>
    process_source fuel self source ;;
    for_sources fuel self srcs
  end.

(** What one turn of [for table in tables[1:]] adds to the query. *)
Definition join_clause (primary_key table : string) : list token :=
  [LEFT; JOIN; Ident table; USING; LPAREN; Ident primary_key; RPAREN].

(** The select statement that the merge writes between the parentheses of
    its [WITH] clause: [SELECT * FROM tables[0]] and one [LEFT JOIN ...
    USING (primary_key)] per further table. *)
Definition incremental_join_text (t0 : string) (rest : list string)
    (primary_key : string) : list token :=
  fold_left (fun query table => query ++ join_clause primary_key table)
            rest
            [SELECT; STAR; FROM; Ident t0].

(** The select statement which that text denotes. *)
Definition incremental_join (t0 : string) (rest : list string)
    (primary_key : string) : select_stmt :=
  {| sel_from := t0; sel_joins := map (fun table => (table, primary_key)) rest |}.

(** The text of the merge statement as [merge_data] assembles it;
    [tables[0]] raises [IndexError] when no source is configured. *)
Definition merge_query (merged_table : string) (tables : list string)
    (primary_key : string) : M (list token) :=
  match tables with
  | [] => raise IndexError
  | t0 :: rest =>
    ret ([CREATE; TABLE; Ident merged_table; AS;
          WITH; Ident "incremental_join"; AS; LPAREN]
         ++ incremental_join_text t0 rest primary_key
         ++ [RPAREN])
  end.

(** [COPY (SELECT * FROM merged_table) TO 'output_path' WITH (...)] *)
Definition copy_to (merged_table : string) (output_path : path) : M unit :=
  fun st =>
    match table_ref (tables st) merged_table with
    | inl e => (Raise (DuckDBError e), st)
    | inr _ =>
      match write_file output_path (fs st) with
      | inl e => (Raise (DuckDBError e), st)
      | inr f => (Ok tt, set_fs f st)
      end
    end.

(** The [try] block of [merge_data]. *)
Definition merge_body (fuel : nat) (self : FACDataPipeline) : M unit :=
  let cfg := self_config self in
  for_sources fuel self (sources cfg) ;;
  let tables := map name (sources cfg) in
  primary_key <- setting cfg "primary_join_key" ;;
  let merged_table := "merged_data" in
  conn_execute (fun t => inr (drop_table_if_exists merged_table t)) ;;
  query <- merge_query merged_table tables (yaml_str primary_key) ;;
  conn_execute (execute query) ;;
  out <- setting cfg "output_filename" ;;
  output_path <- as_path out ;;
  copy_to merged_table output_path.

(** [self.config['settings'].get('cleanup_temp_files', True)] *)
Definition cleanup_enabled (cfg : config) : bool :=
  truthy (default (YBool true) (settings cfg !! "cleanup_temp_files")).

(** Closing the connection and removing the database file discards the
    relations it held. *)
Definition unlink_database (db : path) : M unit :=
  fun st =>
    match unlink db (fs st) with
    | inl e => (Raise e, st)
    | inr f => (Ok tt, {| sent := sent st; tables := ∅; fs := f |})
    end.

(** [for file in ...: file.unlink()]; what has been removed stays removed
    when a later [unlink] fails. *)
Fixpoint unlink_each (ps : list path) : M unit :=
  match ps with
  | [] => ret tt
  | file :: ps =>
    on_fs (unlink file) ;;
    unlink_each ps
  end.

(** The [finally] block of [merge_data] when cleanup is enabled.
    [self.conn.close()] ends the store's use of its files and changes
    nothing that the state records. *)
Definition cleanup (self : FACDataPipeline) : M unit :=
  (fun st => if path_exists (db_path self) (fs st)
             then unlink_database (db_path self) st else ret tt st) ;;
  (fun st => unlink_each (glob_csv (temp_dir self) (fs st)) st) ;;
  (fun st => if path_exists (temp_dir self) (fs st)
             then on_fs (rmdir (temp_dir self)) st else ret tt st).

Definition merge_data (fuel : nat) (self : FACDataPipeline) : M unit :=
  try_finally (merge_body fuel self)
              (if cleanup_enabled (self_config self) then cleanup self else ret tt).

(** [main]: build the pipeline, then merge. *)
Definition main (fuel : nat) (loaded : config) : M unit :=
  pipeline <- __init__ loaded ;;
  merge_data fuel pipeline.

End Pipeline.

(** ** An installation

    The libraries on which the concrete runs below are evaluated: pandas
    before version 3, and a store that reads a text as a number when the
    text is a decimal numeral, with or without a sign, and as a boolean
    when it is [true] or [false]. *)

Definition digit_value (a : ascii) : option Z :=
  let n := nat_of_ascii a in
  if (48 <=? n)%nat && (n <=? 57)%nat then Some (Z.of_nat (n - 48)) else None.

Fixpoint numeral_from (acc : Z) (s : string) : option Z :=
  match s with
  | EmptyString => Some acc
  | String a s =>
    match digit_value a with
    | Some d => numeral_from (10 * acc + d) s
    | None => None
    end
  end.

Definition numeral (s : string) : option Z :=
  match s with
  | EmptyString => None
  | String "-"%char (String _ _ as digits) => Z.opp <$> numeral_from 0 digits
  | String "+"%char (String _ _ as digits) => numeral_from 0 digits
  | _ => numeral_from 0 s
  end.

Definition read_text (ty : sql_type) (s : string) : option value :=
  match ty with
  | VARCHAR => Some (VStr s)
  | BIGINT => VInt <$> numeral s
  | INTEGER =>
    match numeral s with
    | Some z => if in_int32 z then Some (VInt z) else None
    | None => None
    end
  | DOUBLE => VFloat <$> numeral s
  | BOOLEAN =>
    if String.eqb (fold_case s) "true" then Some (VBool true)
    else if String.eqb (fold_case s) "false" then Some (VBool false)
    else None
  end.

#[global] Instance reference_libraries : Libraries :=
  {| pandas_3 := false; text_as := read_text |}.

(** The batch that one turn of the reader's loop makes of a page. *)
Definition yielded `{Libraries} (results : list record) : DataFrame :=
  let df := pd_DataFrame results in
  if decide ("report_id" ∈ columns df) then astype_str "report_id" df else df.

(** The pagination parameters of a source at offset [o] with page size
    [sz]. *)
Definition at_offset (sz : nat) (other : list (string * yaml)) (o : nat)
  : api_params :=
  {| from_ := Z.of_nat o; size := Z.of_nat sz; other_params := other |}.

(** ** Scenarios

    Concrete configurations, sources and states on which the statements
    below are evaluated. *)

Definition page (offset page_size : Z) : api_params :=
  {| from_ := offset; size := page_size; other_params := [] |}.

Definition source (n : string) (page_size : Z) : source_config :=
  {| name := n; url := n; source_api_params := page 0 page_size |}.

Definition demo_settings (join_key output : string) (cleanup : bool)
  : gmap string yaml :=
  list_to_map [("output_filename", YStr output);
               ("download_directory", YStr "downloads");
               ("primary_join_key", YStr join_key);
               ("api_timeout_seconds", YInt 30);
               ("cleanup_temp_files", YBool cleanup)].

Definition demo_pipeline (cfg : config) : FACDataPipeline :=
  {| self_config := cfg;
     temp_dir := ["downloads"];
     db_path := ["downloads"; "temp.duckdb"] |}.

Definition empty_fs : filesystem := {| dirs := ∅; files := ∅ |}.

Definition fresh : state := {| sent := []; tables := ∅; fs := empty_fs |}.

(** The state in which initialisation leaves a run that started in
    [fresh]: the working directory and an empty database file are
    there. *)
Definition opened : state :=
  {| sent := [];
     tables := ∅;
     fs := {| dirs := {[ ["downloads"] ]};
              files := {[ ["downloads"; "temp.duckdb"] ]} |} |}.

(** A source that answers each url with one fixed list of records at
    offset 0 and with nothing further on. *)
Definition one_page_server (content : string -> list record)
    (_ : list request) (req : request) : response :=
  if from_ (req_params req) =? 0 then JsonBody (Some (content (req_url req)))
  else JsonBody (Some []).

(** Anchor keys A, B, C; a second source that only knows B. *)
Definition anchor_content (u : string) : list record :=
  if String.eqb u "general" then
    [[("report_id", VStr "A"); ("auditee", VStr "a")];
     [("report_id", VStr "B"); ("auditee", VStr "b")];
     [("report_id", VStr "C"); ("auditee", VStr "c")]]
  else if String.eqb u "findings" then
    [[("report_id", VStr "B"); ("finding", VStr "f")]]
  else [].

Definition anchor_config : config :=
  {| settings := demo_settings "report_id" "merged.csv.gz" false;
     sources := [source "general" 10; source "findings" 10] |}.

(** Anchor key A once; a second source that has A twice. *)
Definition fanout_content (u : string) : list record :=
  if String.eqb u "general" then
    [[("report_id", VStr "A"); ("auditee", VStr "a")]]
  else if String.eqb u "findings" then
    [[("report_id", VStr "A"); ("finding", VStr "f1")];
     [("report_id", VStr "A"); ("finding", VStr "f2")]]
  else [].

(** Pages of 100, 100 and 40 records at offsets 0, 100 and 200; a full
    page at any other offset. *)
Definition audit_record (i : Z) : record :=
  [("report_id", VInt i); ("auditee", VStr "x")].

Definition three_page_server (_ : list request) (req : request) : response :=
  let offset := from_ (req_params req) in
  if offset =? 200 then JsonBody (Some (repeat (audit_record offset) 40))
  else JsonBody (Some (repeat (audit_record offset) 100)).

Definition paging_config : config :=
  {| settings := demo_settings "report_id" "merged.csv.gz" true;
     sources := [source "general" 100] |}.



(** An anchor source whose records do not carry the join key. *)
Definition keyless_content (_ : string) : list record :=
  [[("auditee", VStr "a")]].


(** A store that already holds a relation under the source's name, and a
    source that has no records. *)
Definition stale_relation : relation :=
  {| schema := ["report_id"];
     types := [VARCHAR];
     tuples := [[VStr "old1"]; [VStr "old2"]] |}.


Definition empty_server (_ : list request) (_ : request) : response :=
  JsonBody (Some []).



(** A source whose second page has a text under the field for which the
    first page has a number. *)
Definition retyped_server (_ : list request) (req : request) : response :=
  let offset := from_ (req_params req) in
  if offset =? 0 then
    JsonBody (Some [[("report_id", VStr "r1"); ("amount", VInt 5)]])
  else if offset =? 1 then
    JsonBody (Some [[("report_id", VStr "r2"); ("amount", VStr "n/a")]])
  else JsonBody (Some []).



(** A configuration without the join key. *)
Definition incomplete_config : config :=
  {| settings := list_to_map [("output_filename", YStr "merged.csv.gz");
                              ("download_directory", YStr "downloads")];
     sources := [source "general" 10] |}.

(** A source that holds a fixed list of records and answers a request
    with the page of that list which the request's offset and page size
    delimit. *)
Definition paged_server (content : list record)
    (_ : list request) (req : request) : response :=
  JsonBody (Some (take (Z.to_nat (size (req_params req)))
                       (drop (Z.to_nat (from_ (req_params req))) content))).

(** A source that answers every request with the same single record. *)
Definition endless_server (_ : list request) (_ : request) : response :=
  JsonBody (Some [audit_record 0]).


(** A source every request to which fails. *)
Definition failing_server (_ : list request) (_ : request) : response :=
  HttpFailure "503 Server Error".

(** A working directory that holds nothing but the database file and two
    earlier exports. *)
Definition tidy : state :=
  {| sent := [];
     tables := ∅;
     fs := {| dirs := {[ ["downloads"] ]};
              files := {[ ["downloads"; "temp.duckdb"] ]}
                       ∪ {[ ["downloads"; "a.csv"] ]}
                       ∪ {[ ["downloads"; "b.csv"] ]}
                       ∪ {[ ["elsewhere.txt"] ]} |} |}.

(** A configuration that passes the check of the required settings but
    names no request timeout. *)
Definition no_timeout_config : config :=
  {| settings := list_to_map [("output_filename", YStr "merged.csv.gz");
                              ("download_directory", YStr "downloads");
                              ("primary_join_key", YStr "report_id")];
     sources := [source "general" 10] |}.

(** ** The endpoint probe [test_endpoints.py]

    The script asks each endpoint for one record and reports which of
    them answer.  Its log lines carry the wall-clock time and are left
    out, as is the pause between two requests. *)
Module TestEndpoints.

Record probe_request := {
  probe_url : string;
  probe_key : string;
  probe_params : api_params
}.

(** What [requests.get] gives the probe: an exception with its text, or
    a response with its status code, its text and what [response.json()]
    gives (the decoded [results], or the text of the decoding error). *)
Inductive probe_response :=
| ProbeException (msg : string)
| ProbeAnswer (status_code : Z) (text : string)
              (json : string + option (list record)).

(** The third component of a result: decoded data or a text. *)
Inductive payload :=
| Data (d : option (list record))
| Text (s : string).

Definition base_urls : list string :=
  ["https://api.sam.gov/data-services/v3/fac/single_audits/general";
   "https://api.sam.gov/data-services/v3/fac/single_audits/findings";
   "https://api.sam.gov/data-services/v3/fac/single_audits/findings_text";
   "https://api.sam.gov/data-services/v3/fac/single_audits/corrective_action_plans"].

(** [api_key or 'DEMO_KEY'] *)
Definition key_or_demo (api_key : option string) : string :=
  match api_key with
  | Some k => if String.eqb k "" then "DEMO_KEY" else k
  | None => "DEMO_KEY"
  end.

Definition params : api_params :=
  {| from_ := 0; size := 1; other_params := [("auditYear", YInt 2024)] |}.

(** The body of the [for url in base_urls] loop: the [try] block and its
    [except] clause. *)
Definition probe (server : list probe_request -> probe_request -> probe_response)
    (key url : string) (sent : list probe_request)
  : (bool * string * payload) * list probe_request :=
  let req := {| probe_url := url; probe_key := key; probe_params := params |} in
  let result :=
    match server sent req with
    | ProbeException msg => (false, url, Text msg)
    | ProbeAnswer status_code text json =>
      if status_code =? 200 then
        match json with
        | inr data => (true, url, Data data)
        | inl msg => (false, url, Text msg)
        end
      else (false, url, Text text)
    end in
  (result, sent ++ [req]).

Fixpoint probe_each (server : list probe_request -> probe_request -> probe_response)
    (key : string) (urls : list string)
    (results : list (bool * string * payload)) (sent : list probe_request)
  : list (bool * string * payload) * list probe_request :=
  match urls with
  | [] => (results, sent)
  | url :: urls =>
    let '(result, sent) := probe server key url sent in
    probe_each server key urls (results ++ [result]) sent
  end.

Definition test_sam_endpoint
    (server : list probe_request -> probe_request -> probe_response)
    (api_key : option string) (sent : list probe_request)
  : list (bool * string * payload) * list probe_request :=
  probe_each server (key_or_demo api_key) base_urls [] sent.

(** [main]: the two numbers of the line [Results: n/m endpoints
    successful], and the endpoints whose sample data it prints. *)
Definition main (server : list probe_request -> probe_request -> probe_response)
    (sent : list probe_request) : (nat * nat) * list string * list probe_request :=
  let '(results, sent) := test_sam_endpoint server None sent in
  let success_count :=
    length (List.filter (fun r => fst (fst r)) results) in
  ((success_count, length results),
   map (fun r => snd (fst r)) (List.filter (fun r => fst (fst r)) results),
   sent).

(** A probe server on which the second endpoint is down, the third
    answers 403 and the fourth answers 200 with a body that is no JSON. *)
Definition flaky (_ : list probe_request) (req : probe_request) : probe_response :=
  if String.eqb (probe_url req)
       "https://api.sam.gov/data-services/v3/fac/single_audits/general"
  then ProbeAnswer 200 "{}" (inr (Some []))
  else if String.eqb (probe_url req)
       "https://api.sam.gov/data-services/v3/fac/single_audits/findings"
  then ProbeException "connection refused"
  else if String.eqb (probe_url req)
       "https://api.sam.gov/data-services/v3/fac/single_audits/findings_text"
  then ProbeAnswer 403 "API_KEY_INVALID" (inl "not json")
  else ProbeAnswer 200 "<html>" (inl "Expecting value").

End TestEndpoints.

(** The request that the probe sends to an endpoint. *)
Definition probe_request_for (key url : string) : TestEndpoints.probe_request :=
  {| TestEndpoints.probe_url := url;
     TestEndpoints.probe_key := key;
     TestEndpoints.probe_params := TestEndpoints.params |}.

(** An answer that the probe counts as a success: status 200 and a body
    that decodes. *)
Definition answers (r : TestEndpoints.probe_response) : bool :=
  match r with
  | TestEndpoints.ProbeAnswer status_code _ (inr _) => status_code =? 200
  | _ => false
  end.

(** * Properties *)

(** ** The text of the merge statement *)

Lemma incremental_join_text_app t0 rest k :
  incremental_join_text t0 rest k
  = [SELECT; STAR; FROM; Ident t0] ++ flat_map (join_clause k) rest.
Proof.
  unfold incremental_join_text.
  generalize [SELECT; STAR; FROM; Ident t0] as head.
  induction rest as [|t rest IH]; intros head; simpl.
  - by rewrite app_nil_r.
  - rewrite IH. by rewrite <- app_assoc.
Qed.

Lemma parse_joins_clauses k rest more :
  parse_joins (flat_map (join_clause k) rest ++ RPAREN :: more)
  = Some (map (fun table => (table, k)) rest, RPAREN :: more).
Proof.
  induction rest as [|t rest IH]; simpl.
  - reflexivity.
  - by rewrite IH.
Qed.

(** The text between the parentheses reads as the join chain
    [incremental_join]. *)
Lemma parse_incremental_join_text t0 rest k more :
  parse_select (incremental_join_text t0 rest k ++ RPAREN :: more)
  = Some (incremental_join t0 rest k, RPAREN :: more).
Proof.
  rewrite incremental_join_text_app. simpl.
  by rewrite parse_joins_clauses.
Qed.

(** Nothing follows the [WITH] clause, so the statement does not parse. *)
Lemma merge_statement_rejected merged t0 rest k :
  parse_statement
    ([CREATE; TABLE; Ident merged; AS; WITH; Ident "incremental_join"; AS; LPAREN]
       ++ incremental_join_text t0 rest k ++ [RPAREN]) = None.
Proof.
  simpl. by rewrite parse_incremental_join_text.
Qed.

(** With the select statement that the clause serves, the same text is
    accepted and denotes the join chain. *)
Lemma completed_statement_accepted merged t0 rest k :
  parse_statement
    ([CREATE; TABLE; Ident merged; AS; WITH; Ident "incremental_join"; AS; LPAREN]
       ++ incremental_join_text t0 rest k
       ++ [RPAREN; SELECT; STAR; FROM; Ident "incremental_join"])
  = Some (CreateTableAs merged
            {| q_with := Some ("incremental_join", incremental_join t0 rest k);
               q_body := {| sel_from := "incremental_join"; sel_joins := [] |} |}).
Proof.
  simpl. by rewrite parse_incremental_join_text.
Qed.

Lemma merge_query_rejected `{Libs : Libraries} merged tables k st q st' :
  merge_query merged tables k st = (Ok q, st') ->
  forall t, execute q t = inl ParserException.
Proof.
  destruct tables as [|t0 rest]; unfold merge_query, raise, ret;
    [discriminate|].
  intros [= <- <-] t. unfold execute.
  pose proof (merge_statement_rejected merged t0 rest k) as H.
  cbn [app] in H. by rewrite H.
Qed.

(** The [try] block of [merge_data] never ends well. *)
Lemma merge_body_not_ok `{Libs : Libraries} server fuel self st st' :
  merge_body server fuel self st <> (Ok tt, st').
Proof.
  unfold merge_body, bind.
  destruct (for_sources _ _ _ _ _) as [[[]| |] st1]; try discriminate.
  unfold setting.
  destruct (settings (self_config self) !! "primary_join_key") as [pk|];
    [|discriminate].
  unfold ret at 1. unfold conn_execute at 1. simpl.
  destruct (merge_query _ _ _ _) as [[q| |] st2] eqn:Hq; try discriminate.
  unfold conn_execute. rewrite (merge_query_rejected _ _ _ _ _ _ Hq). discriminate.
Qed.

(** *** What the join chain would give *)

(** A left row without a match is kept once, padded with NULLs; a left
    row with matches appears once per match. *)
Lemma join_row_fan_out `{Libs : Libraries} ty i j r lrow :
  (matches ty i j r lrow = [] ->
   join_row ty i j r lrow = [lrow ++ replicate (length (schema r) - 1)%nat VNull])
  /\ (matches ty i j r lrow <> [] ->
      join_row ty i j r lrow = map (fun rrow => lrow ++ delete j rrow)
                                   (matches ty i j r lrow))
  /\ length (join_row ty i j r lrow) = Nat.max 1 (length (matches ty i j r lrow)).
Proof.
  unfold join_row.
  destruct (matches ty i j r lrow) as [|m ms]; simpl.
  - by repeat split.
  - split; [done|]. split; [done|]. by rewrite length_map.
Qed.

Lemma join_row_keeps_left `{Libs : Libraries} ty i j r lrow :
  exists ext, lrow ++ ext ∈ join_row ty i j r lrow.
Proof.
  unfold join_row. destruct (matches ty i j r lrow) as [|m ms].
  - eexists. apply list_elem_of_here.
  - eexists. simpl. apply list_elem_of_here.
Qed.

(** What a left join that the store evaluates looks like. *)
Lemma left_join_inr `{Libs : Libraries} k l r res :
  left_join k l r = inr res ->
  exists ty i j,
    index_of k (schema l) = Some i
    /\ index_of k (schema r) = Some j
    /\ res = {| schema := schema l ++ delete j (schema r);
                types := types l ++ delete j (types r);
                tuples := flat_map (join_row ty i j r) (tuples l) |}.
Proof.
  unfold left_join.
  destruct (index_of k (schema l)) as [i|]; [|discriminate].
  destruct (index_of k (schema r)) as [j|]; [|discriminate].
  cbn zeta. case_match; [|discriminate].
  intros [= <-]. by eexists _, i, j.
Qed.

Lemma left_join_keeps_left `{Libs : Libraries} k l r res :
  left_join k l r = inr res ->
  forall lrow, lrow ∈ tuples l -> exists ext, lrow ++ ext ∈ tuples res.
Proof.
  intros (ty & i & j & _ & _ & ->)%left_join_inr lrow Hin. simpl.
  destruct (join_row_keeps_left ty i j r lrow) as (ext & Hext).
  exists ext. apply list_elem_of_In, in_flat_map.
  exists lrow. split; by apply list_elem_of_In.
Qed.

(** Every row of the anchor relation is the beginning of a row of the
    relation the join chain evaluates to. *)
Lemma eval_joins_keeps_anchor `{Libs : Libraries} tables js :
  forall acc res,
    eval_joins tables acc js = inr res ->
    forall row, row ∈ tuples acc -> exists ext, row ++ ext ∈ tuples res.
Proof.
  induction js as [|[t k] js IH]; intros acc res; simpl.
  - intros [= <-] row Hin. exists []. by rewrite app_nil_r.
  - destruct (table_ref tables t) as [e|r]; [discriminate|].
    destruct (left_join k acc r) as [e|acc'] eqn:Hjoin; [discriminate|].
    intros Hrest row Hin.
    destruct (left_join_keeps_left _ _ _ _ Hjoin row Hin) as (ext1 & Hin1).
    destruct (IH _ _ Hrest _ Hin1) as (ext2 & Hin2).
    exists (ext1 ++ ext2). by rewrite app_assoc.
Qed.

(** ** Initialisation (C7) *)

Lemma validate_config_missing loaded key st :
  key ∈ required_settings ->
  settings loaded !! key = None ->
  _validate_config loaded st
  = (Raise (ValueError "Missing required settings: ['output_filename', 'download_directory', 'primary_join_key']"), st).
Proof.
  intros Hkey Hnone. unfold _validate_config.
  assert (forallb (fun key => bool_decide (is_Some (settings loaded !! key)))
                  required_settings = false) as ->; [|done].
  apply not_true_is_false. intros Hall.
  rewrite forallb_forall in Hall.
  apply list_elem_of_In in Hkey. specialize (Hall key Hkey).
  apply bool_decide_eq_true in Hall. rewrite Hnone in Hall.
  by destruct Hall.
Qed.

(** C7: a configuration that lacks the output file name, the working
    directory or the join key makes initialisation fail with the
    [ValueError] of the configuration check, and the state of the world
    is the one before: no request has been sent, no directory or
    database file made.  The whole run [main] ends the same way. *)
Theorem init_rejects_incomplete_config `{Libs : Libraries} server fuel loaded key st :
  key ∈ required_settings ->
  settings loaded !! key = None ->
  exists e,
    is_configuration_error e = true
    /\ __init__ loaded st = (Raise e, st)
    /\ main server fuel loaded st = (Raise e, st)
    /\ sent (snd (main server fuel loaded st)) = sent st.
Proof.
  intros Hkey Hnone. eexists. split; [|split; [|split]].
  2: { unfold __init__, _load_config, bind.
       rewrite (validate_config_missing _ _ _ Hkey Hnone). reflexivity. }
  - reflexivity.
  - unfold main, bind, __init__, _load_config, bind.
    by rewrite (validate_config_missing _ _ _ Hkey Hnone).
  - unfold main, bind, __init__, _load_config, bind.
    by rewrite (validate_config_missing _ _ _ Hkey Hnone).
Qed.

Lemma init_rejects_incomplete_config_witness :
  "primary_join_key" ∈ required_settings
  /\ settings incomplete_config !! "primary_join_key" = None
  /\ exists e,
      is_configuration_error e = true
      /\ __init__ incomplete_config fresh = (Raise e, fresh)
      /\ main empty_server 5 incomplete_config fresh = (Raise e, fresh)
      /\ sent (snd (main empty_server 5 incomplete_config fresh)) = sent fresh.
Proof.
  assert ("primary_join_key" ∈ required_settings) as Hkey.
  { unfold required_settings. do 2 apply list_elem_of_further. apply list_elem_of_here. }
  assert (settings incomplete_config !! "primary_join_key" = None) as Hnone.
  { vm_compute. reflexivity. }
  split; [exact Hkey|]. split; [exact Hnone|].
  exact (init_rejects_incomplete_config empty_server 5 incomplete_config
           "primary_join_key" fresh Hkey Hnone).
Defined.

(** ** The merge statement on staged sources (C1, C6) *)

(** C1: anchor keys A, B and C, a second source that only has B.  The
    run [main] does not get to the merge: initialisation raises on its
    first PRAGMA statement, which names a pragma the store does not
    have, before any request is sent.  Run on the pipeline object of
    that configuration and the connection initialisation had opened,
    the merge step stages both sources with one request each, and the
    join chain written in the merge statement would give three rows with
    NULL for A and C; but the statement that [merge_data] sends consists
    of a [WITH] clause alone, the store rejects it, and no merged
    relation exists afterwards. *)
Theorem merge_anchor_scenario_rejected `{Libs : Libraries} :
  let server := one_page_server anchor_content in
  let started := main server 5 anchor_config fresh in
  let run := merge_data server 5 (demo_pipeline anchor_config) opened in
  fst started = Raise (DuckDBError (CatalogPragmaMissing "enable_compression"))
  /\ snd started = opened
  /\ fst run = Raise (DuckDBError ParserException)
  /\ length (sent (snd run)) = 2%nat
  /\ tables (snd run) !! "merged_data" = None
  /\ (nrows <$> tables (snd run) !! "general") = Some 3%nat
  /\ (nrows <$> tables (snd run) !! "findings") = Some 1%nat
  /\ eval_select (tables (snd run))
                 (incremental_join "general" ["findings"] "report_id")
     = inr {| schema := ["report_id"; "auditee"; "finding"];
              types := [VARCHAR; VARCHAR; VARCHAR];
              tuples := [[VStr "A"; VStr "a"; VNull];
                         [VStr "B"; VStr "b"; VStr "f"];
                         [VStr "C"; VStr "c"; VNull]] |}.
Proof. vm_compute. repeat split. Qed.

(** C6: anchor key A once, a second source that has A twice.  Again the
    run [main] ends in initialisation, on the PRAGMA statement, with no
    request sent; and run on the pipeline object and the opened
    connection, the merge step stages both sources, the join chain would
    give two rows for A, and the merge statement itself is rejected for
    the same reason as above, so that nothing is merged. *)
Theorem merge_fanout_scenario_rejected `{Libs : Libraries} :
  let server := one_page_server fanout_content in
  let started := main server 5 anchor_config fresh in
  let run := merge_data server 5 (demo_pipeline anchor_config) opened in
  fst started = Raise (DuckDBError (CatalogPragmaMissing "enable_compression"))
  /\ snd started = opened
  /\ fst run = Raise (DuckDBError ParserException)
  /\ length (sent (snd run)) = 2%nat
  /\ tables (snd run) !! "merged_data" = None
  /\ (nrows <$> tables (snd run) !! "general") = Some 1%nat
  /\ (nrows <$> tables (snd run) !! "findings") = Some 2%nat
  /\ eval_select (tables (snd run))
                 (incremental_join "general" ["findings"] "report_id")
     = inr {| schema := ["report_id"; "auditee"; "finding"];
              types := [VARCHAR; VARCHAR; VARCHAR];
              tuples := [[VStr "A"; VStr "a"; VStr "f1"];
                         [VStr "A"; VStr "a"; VStr "f2"]] |}.
Proof. vm_compute. repeat split. Qed.

(** ** Data frames *)

Lemma add_keys_spec ks :
  forall seen,
    NoDup seen ->
    NoDup (add_keys seen ks)
    /\ forall k, k ∈ add_keys seen ks <-> k ∈ seen \/ k ∈ ks.
Proof.
  induction ks as [|k0 ks IH]; intros seen Hnd; simpl.
  - split; [done|]. intros k. rewrite elem_of_nil. tauto.
  - case_decide as Hin.
    + destruct (IH seen Hnd) as (Hnd' & Hmem). split; [done|].
      intros k. rewrite Hmem, elem_of_cons. split; [tauto|].
      intros [?|[->|?]]; tauto.
    + assert (NoDup (seen ++ [k0])) as Hnd1.
      { apply NoDup_app. split; [done|]. split; [|apply NoDup_singleton].
        intros x Hx Hx0. apply list_elem_of_singleton in Hx0. by subst. }
      destruct (IH _ Hnd1) as (Hnd' & Hmem). split; [done|].
      intros k. rewrite Hmem, elem_of_app, list_elem_of_singleton, elem_of_cons.
      tauto.
Qed.

Lemma union_keys_from rs :
  forall seen,
    NoDup seen ->
    NoDup (fold_left (fun seen (r : record) => add_keys seen (map fst r)) rs seen)
    /\ forall k,
        k ∈ fold_left (fun seen (r : record) => add_keys seen (map fst r)) rs seen
        <-> k ∈ seen \/ exists r, r ∈ rs /\ k ∈ map fst r.
Proof.
  induction rs as [|r rs IH]; intros seen Hnd; simpl.
  - split; [done|]. intros k. split; [tauto|].
    intros [?|(r & Hr & _)]; [done|]. by apply elem_of_nil in Hr.
  - destruct (add_keys_spec (map fst r) seen Hnd) as (Hnd1 & Hmem1).
    destruct (IH _ Hnd1) as (Hnd2 & Hmem2). split; [done|].
    intros k. rewrite Hmem2, Hmem1. split.
    + intros [[?|?]|(r' & Hr' & Hk)]; [tauto| |].
      * right. exists r. split; [apply list_elem_of_here|done].
      * right. exists r'. split; [by apply list_elem_of_further|done].
    + intros [?|(r' & Hr' & Hk)]; [tauto|].
      apply elem_of_cons in Hr' as [->|Hr']; [tauto|].
      right. by exists r'.
Qed.




Lemma union_keys_spec (rs : list record) :
  NoDup (union_keys rs)
  /\ forall k, k ∈ union_keys rs <-> exists r, r ∈ rs /\ k ∈ map fst r.
Proof.
  destruct (union_keys_from rs [] (NoDup_nil_2 (A:=string))) as (Hnd & Hmem).
  split; [exact Hnd|].
  intros k. unfold union_keys. rewrite Hmem, elem_of_nil. tauto.
Qed.

Lemma hold_nan d : hold d VNaN = VNaN.
Proof. reflexivity. Qed.


Lemma rows_astype_str `{Libs : Libraries} c df :
  Forall (fun row => length row = length (columns df)) (data df) ->
  Forall (fun row => length row = length (columns (astype_str c df)))
         (data (astype_str c df)).
Proof.
  intros Hrows. unfold astype_str. cbn [columns data].
  apply Forall_map. eapply Forall_impl; [exact Hrows|].
  intros row Hrow. cbn beta. rewrite length_zip_with, Hrow. lia.
Qed.

(** ** The reader (C4, C2) *)

Lemma len_pd_DataFrame `{Libs : Libraries} rs : len (pd_DataFrame rs) = length rs.
Proof. unfold len, pd_DataFrame. simpl. by rewrite length_map. Qed.

Lemma len_astype_str `{Libs : Libraries} c df : len (astype_str c df) = len df.
Proof. unfold len, astype_str. simpl. by rewrite length_map. Qed.

Lemma rows_pd_DataFrame `{Libs : Libraries} rs :
  Forall (fun row => length row = length (columns (pd_DataFrame rs)))
         (data (pd_DataFrame rs)).
Proof.
  unfold pd_DataFrame. simpl. apply Forall_forall. intros row Hrow.
  apply list_elem_of_In, in_map_iff in Hrow as (r & <- & _).
  by rewrite length_map.
Qed.





(** One turn of the reader's loop on a page that has records. *)
Lemma fetch_page_yields `{Libs : Libraries} server self src params st timeout r results :
  settings (self_config self) !! "api_timeout_seconds" = Some timeout ->
  server (sent st) {| req_url := url src; req_params := params;
                      req_timeout := timeout |} = JsonBody (Some (r :: results)) ->
  fetch_page server self src params st
  = (Ok (Yield (let df := pd_DataFrame (r :: results) in
                if decide ("report_id" ∈ columns df)
                then astype_str "report_id" df else df)
               (AfterYield params (length (r :: results)))),
     set_sent (sent st ++ [{| req_url := url src; req_params := params;
                              req_timeout := timeout |}]) st).
Proof.
  intros Ht Hresp. unfold fetch_page, bind, setting, requests_get.
  rewrite Ht. unfold ret at 1. cbn beta iota. rewrite Hresp. reflexivity.
Qed.

Lemma fetch_page_stops `{Libs : Libraries} server self src params st timeout :
  settings (self_config self) !! "api_timeout_seconds" = Some timeout ->
  (server (sent st) {| req_url := url src; req_params := params;
                       req_timeout := timeout |} = JsonBody None
   \/ server (sent st) {| req_url := url src; req_params := params;
                          req_timeout := timeout |} = JsonBody (Some [])) ->
  fetch_page server self src params st
  = (Ok StopIteration,
     set_sent (sent st ++ [{| req_url := url src; req_params := params;
                              req_timeout := timeout |}]) st).
Proof.
  intros Ht Hresp. unfold fetch_page, bind, setting, requests_get.
  rewrite Ht. unfold ret at 1. cbn beta iota.
  by destruct Hresp as [-> | ->].
Qed.

(** C4: the reader stops exactly on an empty page or after a page shorter
    than the page size; after every page it has yielded, the offset of
    the next request is the previous offset plus the page size.  With
    pages of 100, 100 and 40 records and page size 100 the staging
    relation has 240 rows and the requests sent are those at offsets
    0, 100 and 200, although the source would answer a fourth. *)
Theorem reader_pagination `{Libs : Libraries} server self src params st timeout :
  settings (self_config self) !! "api_timeout_seconds" = Some timeout ->
  let req := {| req_url := url src; req_params := params;
                req_timeout := timeout |} in
  let after := set_sent (sent st ++ [req]) st in
  (forall results, server (sent st) req = JsonBody (Some results) ->
     results <> [] ->
     exists df,
       fetch_data_stream_next server self src (AtLoopHead params) st
       = (Ok (Yield df (AfterYield params (length results))), after)
       /\ len df = length results)
  /\ (server (sent st) req = JsonBody None
      \/ server (sent st) req = JsonBody (Some []) ->
      fetch_data_stream_next server self src (AtLoopHead params) st
      = (Ok StopIteration, after))
  /\ (forall n st', Z.of_nat n < size params ->
      fetch_data_stream_next server self src (AfterYield params n) st'
      = (Ok StopIteration, st'))
  /\ (forall n st', size params <= Z.of_nat n ->
      fetch_data_stream_next server self src (AfterYield params n) st'
      = fetch_data_stream_next server self src (AtLoopHead (advance params)) st'
      /\ from_ (advance params) = from_ params + size params
      /\ size (advance params) = size params)
  /\ (let run := process_source three_page_server 5 (demo_pipeline paging_config)
                                (source "general" 100) fresh in
      fst run = Ok tt
      /\ (nrows <$> tables (snd run) !! "general") = Some 240%nat
      /\ map (fun r => from_ (req_params r)) (sent (snd run)) = [0; 100; 200]
      /\ three_page_server (sent (snd run))
           {| req_url := "general"; req_params := page 300 100;
              req_timeout := YInt 30 |}
         = JsonBody (Some (repeat (audit_record 300) 100))).
Proof.
  intros Ht req after.
  split; [|split; [|split; [|split]]].
  - intros results Hresp Hne. destruct results as [|r results]; [done|].
    eexists. split.
    + simpl. apply (fetch_page_yields _ _ _ _ _ _ _ _ Ht Hresp).
    + cbn zeta. case_decide.
      * by rewrite len_astype_str, len_pd_DataFrame.
      * by rewrite len_pd_DataFrame.
  - intros Hresp. simpl. by apply fetch_page_stops.
  - intros n st' Hshort. simpl.
    by apply Z.ltb_lt in Hshort as ->.
  - intros n st' Hfull. simpl.
    by apply Z.ltb_ge in Hfull as ->.
  - vm_compute. repeat split.
Qed.

Lemma reader_pagination_witness :
  settings (self_config (demo_pipeline paging_config)) !! "api_timeout_seconds"
  = Some (YInt 30)
  /\ fetch_data_stream_next three_page_server (demo_pipeline paging_config)
       (source "general" 100) (AfterYield (page 100 100) 40) fresh
     = (Ok StopIteration, fresh).
Proof.
  assert (settings (self_config (demo_pipeline paging_config))
            !! "api_timeout_seconds" = Some (YInt 30)) as Ht.
  { vm_compute. reflexivity. }
  split; [exact Ht|].
  destruct (reader_pagination three_page_server (demo_pipeline paging_config)
              (source "general" 100) (page 100 100) fresh (YInt 30) Ht)
    as (_ & _ & Hshort & _).
  apply Hshort. simpl. lia.
Defined.



Lemma len_yielded `{Libs : Libraries} results :
  len (yielded results) = length results.
Proof.
  unfold yielded. cbn zeta. case_decide.
  - by rewrite len_astype_str, len_pd_DataFrame.
  - apply len_pd_DataFrame.
Qed.









(** ** The loader (C8, C5, C10) *)

(** *** Conversion to the types of the columns *)


Lemma convert_row_length `{Libs : Libraries} tys :
  forall row row',
    convert_row tys row = Some row' ->
    length row' = Nat.min (length tys) (length row).
Proof.
  induction tys as [|ty tys IH]; intros row row'; simpl.
  - by intros [= <-].
  - destruct row as [|v row]; [by intros [= <-]|].
    destruct (convert ty v) as [v'|]; [|discriminate].
    destruct (convert_row tys row) as [row1|] eqn:Hrow; [|discriminate].
    intros [= <-]. simpl. by rewrite (IH _ _ Hrow).
Qed.






(** *** Appending a batch *)









Lemma for_chunks_step `{Libs : Libraries}
    server self src fuel g first_chunk rows_processed st :
  for_chunks server (S fuel) self src g first_chunk rows_processed st
  = match fetch_data_stream_next server self src g st with
    | (Ok StopIteration, st1) => (Ok rows_processed, st1)
    | (Ok (Yield chunk g'), st1) =>
      match load_chunk (name src) first_chunk chunk st1 with
      | (Ok _, st2) =>
        for_chunks server fuel self src g' false
                   (rows_processed + len chunk)%nat st2
      | (Raise e, st2) => (Raise e, st2)
      | (Diverge, st2) => (Diverge, st2)
      end
    | (Raise e, st1) => (Raise e, st1)
    | (Diverge, st1) => (Diverge, st1)
    end.
Proof.
  cbn [for_chunks]. unfold bind at 1.
  destruct (fetch_data_stream_next server self src g st) as [[[chunk g'|]|e|] st1];
    reflexivity.
Qed.







(** *** A source without records (C10) *)




(** ** The join key and the anchor relation (C3) *)

(** The errors of the merge step: none of them is the configuration
    error of the pipeline. *)
Lemma fetch_data_stream_next_error `{Libs : Libraries} server self src g st e st' :
  fetch_data_stream_next server self src g st = (Raise e, st') ->
  is_configuration_error e = false.
Proof.
  assert (forall params,
             fetch_page server self src params st = (Raise e, st') ->
             is_configuration_error e = false) as Hpage.
  { intros params. unfold fetch_page, bind, setting, requests_get.
    destruct (settings (self_config self) !! "api_timeout_seconds") as [timeout|].
    - cbn. destruct (server (sent st) _) as [detail|[[|r results]|]];
        intros [= <- <-]; reflexivity.
    - intros [= <- <-]. reflexivity. }
  destruct g as [params|params n|]; cbn [fetch_data_stream_next].
  - apply Hpage.
  - case_match; [discriminate|apply Hpage].
  - discriminate.
Qed.

Lemma conn_execute_error stmt st e st' :
  conn_execute stmt st = (Raise e, st') -> is_configuration_error e = false.
Proof.
  unfold conn_execute. destruct (stmt (tables st)); by intros [= <- <-].
Qed.

Lemma load_chunk_error `{Libs : Libraries} table first_chunk chunk st e st' :
  load_chunk table first_chunk chunk st = (Raise e, st') ->
  is_configuration_error e = false.
Proof.
  unfold load_chunk. destruct first_chunk.
  - unfold bind.
    destruct (conn_execute _ st) as [[[]|e0|] st1] eqn:Hdrop.
    + apply conn_execute_error.
    + intros [= <- <-]. by apply conn_execute_error in Hdrop.
    + discriminate.
  - apply conn_execute_error.
Qed.

Lemma for_chunks_error `{Libs : Libraries} server self src fuel :
  forall g first_chunk rows_processed st e st',
    for_chunks server fuel self src g first_chunk rows_processed st
    = (Raise e, st') ->
    is_configuration_error e = false.
Proof.
  induction fuel as [|fuel IH]; intros g fc rp st e st'; [discriminate|].
  rewrite for_chunks_step.
  destruct (fetch_data_stream_next server self src g st)
    as [[[chunk g'|]|e0|] st1] eqn:Hnext.
  - destruct (load_chunk _ _ _ _) as [[[]|e1|] st2] eqn:Hload.
    + apply IH.
    + intros [= <- <-]. by apply load_chunk_error in Hload.
    + discriminate.
  - discriminate.
  - intros [= <- <-]. by apply fetch_data_stream_next_error in Hnext.
  - discriminate.
Qed.

Lemma for_sources_error `{Libs : Libraries} server fuel self srcs :
  forall st e st',
    for_sources server fuel self srcs st = (Raise e, st') ->
    is_configuration_error e = false.
Proof.
  induction srcs as [|src srcs IH]; intros st e st'; [discriminate|].
  cbn [for_sources]. unfold bind at 1. unfold process_source, bind at 1.
  destruct (for_chunks _ _ _ _ _ _ _ _) as [[n|e0|] st1] eqn:Hsrc.
  - unfold ret. apply IH.
  - intros [= <- <-]. by apply for_chunks_error in Hsrc.
  - discriminate.
Qed.

Lemma merge_body_error `{Libs : Libraries} server fuel self st e st' :
  merge_body server fuel self st = (Raise e, st') ->
  is_configuration_error e = false.
Proof.
  unfold merge_body, bind.
  destruct (for_sources _ _ _ _ _) as [[[]|e0|] st1] eqn:Hsrc.
  2: { intros [= <- <-]. by apply for_sources_error in Hsrc. }
  2: discriminate.
  unfold setting.
  destruct (settings (self_config self) !! "primary_join_key") as [pk|];
    [|by intros [= <- <-]].
  unfold ret at 1. unfold conn_execute at 1. cbn beta iota.
  destruct (merge_query _ _ _ _) as [[q|e1|] st2] eqn:Hq.
  - unfold conn_execute. rewrite (merge_query_rejected _ _ _ _ _ _ Hq).
    by intros [= <- <-].
  - intros [= <- <-]. revert Hq. unfold merge_query.
    destruct (map name _); unfold raise, ret; by intros [= <- <-].
  - discriminate.
Qed.

Lemma unlink_each_error ps :
  forall st e st',
    unlink_each ps st = (Raise e, st') -> is_configuration_error e = false.
Proof.
  induction ps as [|file ps IH]; intros st e st'; [discriminate|].
  cbn [unlink_each]. unfold bind, on_fs, unlink.
  case_bool_decide; [apply IH|by intros [= <- <-]].
Qed.

Lemma cleanup_error self st e st' :
  cleanup self st = (Raise e, st') -> is_configuration_error e = false.
Proof.
  unfold cleanup. unfold bind at 1.
  destruct (if path_exists (db_path self) (fs st) then _ else _)
    as [[[]|e1|] st1] eqn:Hstep1.
  - unfold bind at 1.
    destruct (unlink_each _ st1) as [[[]|e2|] st2] eqn:Hstep2.
    + destruct (path_exists (temp_dir self) (fs st2)); [|discriminate].
      unfold on_fs, rmdir. case_bool_decide; [discriminate|].
      by intros [= <- <-].
    + intros [= <- <-]. by apply unlink_each_error in Hstep2.
    + discriminate.
  - intros [= <- <-]. revert Hstep1.
    destruct (path_exists _ _); [|discriminate].
    unfold unlink_database, unlink. case_bool_decide; [discriminate|].
    by intros [= <- <-].
  - discriminate.
Qed.

Lemma merge_data_error `{Libs : Libraries} server fuel self st e st' :
  merge_data server fuel self st = (Raise e, st') ->
  is_configuration_error e = false.
Proof.
  unfold merge_data, try_finally.
  destruct (merge_body server fuel self st) as [[[]|e1|] st1] eqn:Hbody.
  - by apply merge_body_not_ok in Hbody.
  - apply merge_body_error in Hbody.
    destruct (cleanup_enabled (self_config self)).
    + destruct (cleanup self st1) as [[[]|e2|] st2] eqn:Hclean.
      * by intros [= <- <-].
      * intros [= <- <-]. by apply cleanup_error in Hclean.
      * discriminate.
    + by intros [= <- <-].
  - discriminate.
Qed.

(** The configuration check fails only for a required setting that is
    absent. *)
Lemma validate_config_raises loaded st e st' :
  _validate_config loaded st = (Raise e, st') ->
  exists key, key ∈ required_settings /\ settings loaded !! key = None.
Proof.
  unfold _validate_config.
  destruct (forallb _ required_settings) eqn:Hall; [discriminate|].
  intros _.
  apply not_true_iff_false in Hall.
  destruct (decide (Forall (fun key => is_Some (settings loaded !! key))
                           required_settings)) as [Hyes|Hno].
  - exfalso. apply Hall. apply forallb_forall. intros key Hkey.
    apply bool_decide_eq_true. rewrite Forall_forall in Hyes.
    by apply Hyes, list_elem_of_In.
  - apply not_Forall_Exists in Hno; [|apply _].
    apply Exists_exists in Hno as (key & Hkey & Hnone).
    exists key. split; [done|]. by apply eq_None_not_Some.
Qed.

(** C3 as stated fails: both sources are staged without the configured
    join key [report_id], so the anchor relation has no such column.
    The merge step ends with the store's rejection of the merge
    statement, which is no configuration error, and so does the run
    [main], on the store's rejection of the PRAGMA statement of
    initialisation. *)
Lemma keyless_anchor_is_not_a_configuration_error :
  let server := one_page_server keyless_content in
  let run := merge_data server 5 (demo_pipeline anchor_config) opened in
  settings anchor_config !! "primary_join_key" = Some (YStr "report_id")
  /\ map name (sources anchor_config) = ["general"; "findings"]
  /\ (schema <$> tables (snd run) !! "general") = Some ["auditee"]
  /\ index_of "report_id" ["auditee"] = None
  /\ fst run = Raise (DuckDBError ParserException)
  /\ is_configuration_error (DuckDBError ParserException) = false
  /\ fst (main server 5 anchor_config fresh)
     = Raise (DuckDBError (CatalogPragmaMissing "enable_compression")).
Proof. vm_compute. repeat split. Qed.

(** C3, amended: the merge step never fails with a configuration error,
    whether or not the configured join key is a column of the anchor
    relation.  The only configuration error of the pipeline is that of
    the configuration check, which looks at the presence of the required
    settings and never at a relation.  [merge_data] compares the key
    with no schema: it writes the key into the [USING] clause of each
    join of the merge statement, once per further source, so that with
    the anchor as the only source the statement does not depend on the
    key at all; an error for a key that is missing from a relation can
    only come from the store, as an error of its own. *)
Theorem join_key_absent_from_anchor `{Libs : Libraries}
    server fuel self st merged t0 rest k k' :
  (forall e, fst (merge_data server fuel self st) = Raise e ->
             is_configuration_error e = false)
  /\ (forall e, fst (merge_body server fuel self st) = Raise e ->
                is_configuration_error e = false)
  /\ (forall e, fst (_validate_config (self_config self) st) = Raise e ->
        exists key, key ∈ required_settings
                    /\ settings (self_config self) !! key = None)
  /\ merge_query merged [t0] k st = merge_query merged [t0] k' st
  /\ fst (merge_query merged (t0 :: rest) k st)
     = Ok ([CREATE; TABLE; Ident merged; AS;
            WITH; Ident "incremental_join"; AS; LPAREN;
            SELECT; STAR; FROM; Ident t0]
           ++ flat_map (fun table =>
                          [LEFT; JOIN; Ident table;
                           USING; LPAREN; Ident k; RPAREN]) rest
           ++ [RPAREN]).
Proof.
  split; [|split; [|split; [|split]]].
  - intros e He.
    destruct (merge_data server fuel self st) as [r st'] eqn:Hrun.
    simpl in He. subst r. by apply merge_data_error in Hrun.
  - intros e He.
    destruct (merge_body server fuel self st) as [r st'] eqn:Hrun.
    simpl in He. subst r. by apply merge_body_error in Hrun.
  - intros e He.
    destruct (_validate_config (self_config self) st) as [r st'] eqn:Hrun.
    simpl in He. subst r. by apply validate_config_raises in Hrun.
  - reflexivity.
  - unfold merge_query, ret. cbn [fst].
    rewrite incremental_join_text_app. by rewrite <- !app_assoc.
Qed.

(** ** Cleanup (C9) *)









(** Removing files that are all there, each listed once, ends well. *)
Lemma unlink_each_ok ps :
  forall st,
    NoDup ps ->
    (forall p, p ∈ ps -> p ∈ files (fs st)) ->
    exists st',
      unlink_each ps st = (Ok tt, st')
      /\ sent st' = sent st /\ tables st' = tables st
      /\ dirs (fs st') = dirs (fs st)
      /\ forall p, p ∈ files (fs st') <-> p ∈ files (fs st) /\ p ∉ ps.
Proof.
  induction ps as [|file ps IH]; intros st Hnd Hin.
  - exists st. split; [done|]. split; [done|]. split; [done|]. split; [done|].
    intros p. split.
    + intros Hp. split; [done|]. apply not_elem_of_nil.
    + by intros [? _].
  - apply NoDup_cons in Hnd as [Hfile Hnd].
    cbn [unlink_each]. unfold bind, on_fs, unlink.
    rewrite bool_decide_eq_true_2 by (apply Hin, list_elem_of_here).
    destruct (IH (set_fs {| dirs := dirs (fs st);
                            files := files (fs st) ∖ {[file]} |} st) Hnd)
      as (st' & Hrun & Hsent & Htab & Hdirs & Hfiles).
    { intros p Hp. simpl. apply elem_of_difference. split.
      - by apply Hin, list_elem_of_further.
      - intros Heq. apply elem_of_singleton in Heq. by subst. }
    exists st'. split; [exact Hrun|]. simpl in *.
    split; [done|]. split; [done|]. split; [done|].
    intros p. rewrite Hfiles, elem_of_difference, elem_of_singleton,
      not_elem_of_cons. tauto.
Qed.

Lemma elem_of_glob_csv_iff d f p :
  p ∈ glob_csv d f
  <-> (p ∈ dirs f \/ p ∈ files f) /\ child_of d p
      /\ ends_with ".csv" (basename p) = true.
Proof.
  unfold glob_csv, entries.
  rewrite elem_of_elements, !elem_of_filter, elem_of_union. tauto.
Qed.

Lemma elem_of_entries d f p :
  p ∈ entries d f <-> child_of d p /\ (p ∈ dirs f \/ p ∈ files f).
Proof. unfold entries. by rewrite elem_of_filter, elem_of_union. Qed.

Lemma parent_neq (p : path) : p <> [] -> parent p <> p.
Proof.
  induction p as [|a p _] using rev_ind; [done|]. intros _.
  unfold parent. rewrite removelast_last. intros Heq.
  apply (f_equal length) in Heq. rewrite length_app in Heq. simpl in Heq. lia.
Qed.





(** * Further properties *)

(** ** The batches of the reader *)

(** X1: the batch that the reader yields for a page of records has one
    row per record, each row with one cell per column; its columns are
    distinct and are exactly the fields that occur in some record of the
    page. *)
Theorem yielded_batch_shape `{Libs : Libraries} server self src params st timeout results :
  settings (self_config self) !! "api_timeout_seconds" = Some timeout ->
  server (sent st) {| req_url := url src; req_params := params;
                      req_timeout := timeout |} = JsonBody (Some results) ->
  results <> [] ->
  exists df g st',
    fetch_data_stream_next server self src (AtLoopHead params) st
    = (Ok (Yield df g), st')
    /\ len df = length results
    /\ NoDup (columns df)
    /\ (forall k, k ∈ columns df <-> exists r, r ∈ results /\ k ∈ map fst r)
    /\ Forall (fun row => length row = length (columns df)) (data df).
Proof.
  intros Ht Hresp Hne. destruct results as [|r results]; [done|].
  do 3 eexists. split.
  { simpl. apply (fetch_page_yields _ _ _ _ _ _ _ _ Ht Hresp). }
  cbn zeta. generalize (r :: results) as rs. intros rs.
  destruct (union_keys_spec rs) as (Hnd & Hmem).
  case_decide.
  - split; [by rewrite len_astype_str, len_pd_DataFrame|].
    split; [done|]. split; [done|].
    apply rows_astype_str, rows_pd_DataFrame.
  - split; [apply len_pd_DataFrame|].
    split; [done|]. split; [done|]. apply rows_pd_DataFrame.
Qed.

Lemma yielded_batch_shape_witness :
  settings (self_config (demo_pipeline anchor_config)) !! "api_timeout_seconds"
  = Some (YInt 30)
  /\ one_page_server anchor_content (sent fresh)
       {| req_url := url (source "general" 10); req_params := page 0 10;
          req_timeout := YInt 30 |}
     = JsonBody (Some (anchor_content "general"))
  /\ anchor_content "general" <> []
  /\ exists df g st',
      fetch_data_stream_next (one_page_server anchor_content)
        (demo_pipeline anchor_config) (source "general" 10)
        (AtLoopHead (page 0 10)) fresh
      = (Ok (Yield df g), st')
      /\ len df = length (anchor_content "general")
      /\ NoDup (columns df)
      /\ (forall k, k ∈ columns df
                    <-> exists r, r ∈ anchor_content "general" /\ k ∈ map fst r)
      /\ Forall (fun row => length row = length (columns df)) (data df).
Proof.
  assert (settings (self_config (demo_pipeline anchor_config))
            !! "api_timeout_seconds" = Some (YInt 30)) as Ht.
  { vm_compute. reflexivity. }
  assert (one_page_server anchor_content (sent fresh)
            {| req_url := url (source "general" 10); req_params := page 0 10;
               req_timeout := YInt 30 |}
          = JsonBody (Some (anchor_content "general"))) as Hresp.
  { reflexivity. }
  assert (anchor_content "general" <> []) as Hne.
  { vm_compute. discriminate. }
  split; [exact Ht|]. split; [exact Hresp|]. split; [exact Hne|].
  exact (yielded_batch_shape (one_page_server anchor_content)
           (demo_pipeline anchor_config) (source "general" 10) (page 0 10)
           fresh (YInt 30) (anchor_content "general") Ht Hresp Hne).
Defined.






(** ** Pagination *)

(** Resuming after a full page is the same as starting at the next
    offset. *)
Lemma drain_after_full_page `{Libs : Libraries} server self src fuel params n st :
  size params <= Z.of_nat n ->
  drain server fuel self src (AfterYield params n) st
  = drain server fuel self src (AtLoopHead (advance params)) st.
Proof.
  intros Hfull. destruct fuel as [|fuel]; [reflexivity|].
  cbn [drain fetch_data_stream_next].
  replace (Z.of_nat n <? size (advance params)) with false; [reflexivity|].
  symmetry. apply Z.ltb_ge. exact Hfull.
Qed.

Lemma drain_after_short_page `{Libs : Libraries} server self src fuel params n st :
  Z.of_nat n < size params ->
  drain server (S fuel) self src (AfterYield params n) st = (Ok [], st).
Proof.
  intros Hshort. cbn [drain fetch_data_stream_next].
  replace (Z.of_nat n <? size (advance params)) with true; [reflexivity|].
  symmetry. apply Z.ltb_lt. exact Hshort.
Qed.

(** One step of [drain] at the head of the loop. *)
Lemma drain_step `{Libs : Libraries} server self src fuel params st timeout :
  settings (self_config self) !! "api_timeout_seconds" = Some timeout ->
  let req := {| req_url := url src; req_params := params;
                req_timeout := timeout |} in
  let st1 := set_sent (sent st ++ [req]) st in
  drain server (S fuel) self src (AtLoopHead params) st
  = match server (sent st) req with
    | HttpFailure detail => (Raise (RequestException detail), st1)
    | JsonBody None | JsonBody (Some []) => (Ok [], st1)
    | JsonBody (Some results) =>
      match drain server fuel self src (AfterYield params (length results)) st1 with
      | (Ok chunks, st2) => (Ok (yielded results :: chunks), st2)
      | (Raise e, st2) => (Raise e, st2)
      | (Diverge, st2) => (Diverge, st2)
      end
    end.
Proof.
  intros Ht req st1. cbn [drain fetch_data_stream_next].
  unfold bind at 1. unfold fetch_page, bind, setting, requests_get.
  rewrite Ht. unfold ret at 1. cbn beta iota. fold req. fold st1.
  destruct (server (sent st) req) as [detail|[[|r results]|]]; try reflexivity.
Qed.

Lemma paged_drain `{Libs : Libraries} content self src timeout sz other fuel :
  settings (self_config self) !! "api_timeout_seconds" = Some timeout ->
  (0 < sz)%nat ->
  forall o st,
    (length (drop o content) / sz + 2 <= fuel)%nat ->
    exists chunks st',
      drain (paged_server content) fuel self src
            (AtLoopHead (at_offset sz other o)) st
      = (Ok chunks, st')
      /\ sum_list (map len chunks) = length (drop o content)
      /\ length (sent st')
         = (length (sent st) + length (drop o content) / sz + 1)%nat
      /\ tables st' = tables st
      /\ (exists pages,
             chunks = map yielded pages
             /\ concat pages = drop o content
             /\ Forall (fun results => results <> []
                                       /\ (length results <= sz)%nat) pages)
      /\ Forall (fun chunk => exists results,
                    results <> [] /\ (forall r, r ∈ results -> r ∈ content)
                    /\ chunk = yielded results) chunks.
Proof.
  intros Htimeout Hsz.
  induction fuel as [|fuel IH]; intros o st Hfuel; [lia|].
  rewrite (drain_step _ _ _ _ _ _ _ Htimeout).
  unfold paged_server at 1. cbn [req_params at_offset size from_].
  rewrite !Nat2Z.id.
  set (rest := drop o content) in *.
  set (st1 := set_sent _ st).
  destruct (take sz rest) as [|r results] eqn:Htake.
  - assert (rest = []) as Hrest.
    { destruct rest; [done|]. destruct sz; [lia|discriminate]. }
    exists [], st1. rewrite Hrest. simpl.
    rewrite Nat.Div0.div_0_l. rewrite length_app. simpl.
    split; [done|]. split; [done|]. split; [lia|]. split; [done|].
    split; [|constructor].
    exists []. split; [done|]. split; [done|]. constructor.
  - assert (length (r :: results) = Nat.min sz (length rest)) as Hlen.
    { rewrite <- Htake. apply length_take. }
    destruct (decide (length rest < sz)%nat) as [Hshort|Hfull].
    + destruct fuel as [|fuel]; [lia|].
      rewrite drain_after_short_page by (cbn [size at_offset]; lia).
      exists [yielded (r :: results)], st1.
      assert (take sz rest = rest) as Hall by (apply take_ge; lia).
      rewrite Htake in Hall.
      split; [done|]. split.
      { simpl. rewrite len_yielded, Hall. lia. }
      split.
      { unfold st1. simpl. rewrite length_app. simpl.
        rewrite Nat.div_small by lia. lia. }
      split; [done|]. split.
      { exists [r :: results]. split; [done|]. split.
        - simpl. by rewrite app_nil_r.
        - constructor; [|constructor]. split; [done|]. lia. }
      constructor; [|constructor].
      exists (r :: results). split; [done|]. split; [|done].
      intros r0 Hr0. rewrite Hall in Hr0.
      by apply (subseteq_drop o content).
    + rewrite drain_after_full_page by (cbn [size at_offset]; lia).
      assert (advance (at_offset sz other o) = at_offset sz other (o + sz)) as ->.
      { unfold advance, at_offset. simpl. f_equal. lia. }
      assert (drop (o + sz) content = drop sz rest) as Hdrop.
      { unfold rest. rewrite drop_drop. done. }
      assert (length rest / sz = S (length (drop sz rest) / sz))%nat as Hdiv.
      { rewrite length_drop.
        replace (length rest) with ((length rest - sz) + 1 * sz)%nat at 1 by lia.
        rewrite Nat.div_add by lia. lia. }
      destruct (IH (o + sz)%nat st1)
        as (chunks & st2 & Hrun & Hsum & Hsent & Htab & Hread & Hpages).
      { rewrite Hdrop. lia. }
      rewrite Hrun. exists (yielded (r :: results) :: chunks), st2.
      split; [done|]. split.
      { simpl. rewrite len_yielded, Hsum, Hdrop, Hlen, length_drop. lia. }
      split.
      { rewrite Hsent, Hdrop. unfold st1. simpl. rewrite length_app. simpl. lia. }
      split; [by rewrite Htab|]. split.
      { destruct Hread as (pages & -> & Hcat & Hsizes).
        exists ((r :: results) :: pages). split; [done|]. split.
        - cbn [concat]. rewrite Hcat, Hdrop, <- Htake. apply take_drop.
        - constructor; [|done]. split; [done|]. lia. }
      constructor; [|done].
      exists (r :: results). split; [done|]. split; [|done].
      intros r0 Hr0. rewrite <- Htake in Hr0.
      by apply (subseteq_drop o content), (subseteq_take sz rest).
Qed.

Lemma paged_drain_source `{Libs : Libraries} content self src timeout fuel st :
  settings (self_config self) !! "api_timeout_seconds" = Some timeout ->
  0 <= from_ (source_api_params src) ->
  0 < size (source_api_params src) ->
  let rest := drop (Z.to_nat (from_ (source_api_params src))) content in
  let sz := Z.to_nat (size (source_api_params src)) in
  (length rest / sz + 2 <= fuel)%nat ->
  exists chunks st',
    drain (paged_server content) fuel self src (fetch_data_stream src) st
    = (Ok chunks, st')
    /\ sum_list (map len chunks) = length rest
    /\ length (sent st') = (length (sent st) + length rest / sz + 1)%nat
    /\ (exists pages,
           chunks = map yielded pages
           /\ concat pages = rest
           /\ Forall (fun results => results <> []
                                     /\ (length results <= sz)%nat) pages)
    /\ Forall (fun chunk => exists results,
                  results <> [] /\ (forall r, r ∈ results -> r ∈ content)
                  /\ chunk = yielded results) chunks.
Proof.
  intros Ht Hfrom Hsize rest sz Hfuel.
  destruct (paged_drain content self src timeout sz
              (other_params (source_api_params src)) fuel Ht ltac:(lia)
              (Z.to_nat (from_ (source_api_params src))) st Hfuel)
    as (chunks & st' & Hrun & Hsum & Hsent & _ & Hcol & Hpages).
  exists chunks, st'. split; [|done].
  unfold fetch_data_stream. rewrite <- Hrun. do 2 f_equal.
  destruct (source_api_params src) as [o s other]. simpl in *.
  unfold at_offset, sz. f_equal; lia.
Qed.

(** X3: against a source that serves a list of records page by page, the
    reader with a positive page size ends, given enough steps.  The
    batches it yields are the batches of consecutive pages, none empty
    and none longer than the page size, that together are the records
    from the start offset on, in order: no record is lost, repeated or
    moved.  The sizes of the batches add up to the number of those
    records, and the number of requests sent is the quotient of that
    number by the page size, plus one. *)
Theorem reader_reads_every_record `{Libs : Libraries} content self src timeout fuel st :
  settings (self_config self) !! "api_timeout_seconds" = Some timeout ->
  0 <= from_ (source_api_params src) ->
  0 < size (source_api_params src) ->
  let rest := drop (Z.to_nat (from_ (source_api_params src))) content in
  let sz := Z.to_nat (size (source_api_params src)) in
  (length rest / sz + 2 <= fuel)%nat ->
  exists chunks st',
    drain (paged_server content) fuel self src (fetch_data_stream src) st
    = (Ok chunks, st')
    /\ (exists pages,
           chunks = map yielded pages
           /\ concat pages = rest
           /\ Forall (fun results => results <> []
                                     /\ (length results <= sz)%nat) pages)
    /\ sum_list (map len chunks) = length rest
    /\ length (sent st') = (length (sent st) + length rest / sz + 1)%nat.
Proof.
  intros Ht Hfrom Hsize rest sz Hfuel.
  destruct (paged_drain_source content self src timeout fuel st
              Ht Hfrom Hsize Hfuel)
    as (chunks & st' & Hrun & Hsum & Hsent & Hread & _).
  by exists chunks, st'.
Qed.

Lemma reader_reads_every_record_witness :
  let content := map audit_record [1; 2; 3; 4; 5; 6; 7] in
  let self := demo_pipeline paging_config in
  let src := source "general" 3 in
  settings (self_config self) !! "api_timeout_seconds" = Some (YInt 30)
  /\ 0 <= from_ (source_api_params src)
  /\ 0 < size (source_api_params src)
  /\ (length (drop (Z.to_nat (from_ (source_api_params src))) content)
      / Z.to_nat (size (source_api_params src)) + 2 <= 4)%nat
  /\ exists chunks st',
      drain (paged_server content) 4 self src (fetch_data_stream src) fresh
      = (Ok chunks, st')
      /\ (exists pages, chunks = map yielded pages /\ concat pages = content)
      /\ sum_list (map len chunks) = 7%nat
      /\ length (sent st') = 3%nat.
Proof.
  intros content self src.
  assert (settings (self_config self) !! "api_timeout_seconds" = Some (YInt 30))
    as Ht.
  { vm_compute. reflexivity. }
  assert (0 <= from_ (source_api_params src)) as Hfrom.
  { vm_compute. discriminate. }
  assert (0 < size (source_api_params src)) as Hsize.
  { vm_compute. reflexivity. }
  assert (length (drop (Z.to_nat (from_ (source_api_params src))) content)
          / Z.to_nat (size (source_api_params src)) + 2 <= 4)%nat as Hfuel.
  { vm_compute. lia. }
  split; [exact Ht|]. split; [exact Hfrom|]. split; [exact Hsize|].
  split; [exact Hfuel|].
  destruct (reader_reads_every_record content self src (YInt 30) 4 fresh
              Ht Hfrom Hsize Hfuel)
    as (chunks & st' & Hrun & (pages & Hchunks & Hcat & _) & Hsum & Hsent).
  exists chunks, st'. split; [exact Hrun|]. split.
  - exists pages. split; [exact Hchunks|exact Hcat].
  - split; [exact Hsum|exact Hsent].
Defined.

(** The reader never ends on a source whose every page is full. *)
Lemma drain_full_pages_diverges `{Libs : Libraries} server self src timeout sz fuel :
  settings (self_config self) !! "api_timeout_seconds" = Some timeout ->
  (forall hist req, exists r rs,
      server hist req = JsonBody (Some (r :: rs))
      /\ sz <= Z.of_nat (length (r :: rs))) ->
  forall params st,
    size params = sz ->
    fst (drain server fuel self src (AtLoopHead params) st) = Diverge.
Proof.
  intros Ht Hfull. induction fuel as [|fuel IH]; intros params st Hsz.
  - reflexivity.
  - rewrite (drain_step _ _ _ _ _ _ _ Ht).
    destruct (Hfull (sent st) {| req_url := url src; req_params := params;
                                 req_timeout := timeout |})
      as (r & rs & -> & Hlen).
    rewrite drain_after_full_page by lia.
    specialize (IH (advance params)
                   (set_sent (sent st ++ [{| req_url := url src;
                                             req_params := params;
                                             req_timeout := timeout |}]) st) Hsz).
    destruct (drain _ _ _ _ _ _) as [[chunks|e|] st2]; simpl in *; congruence.
Qed.

Lemma for_chunks_full_pages_not_ok `{Libs : Libraries} server self src timeout sz fuel :
  settings (self_config self) !! "api_timeout_seconds" = Some timeout ->
  (forall hist req, exists r rs,
      server hist req = JsonBody (Some (r :: rs))
      /\ sz <= Z.of_nat (length (r :: rs))) ->
  forall g first_chunk rows_processed st n,
    match g with
    | AtLoopHead params => size params = sz
    | AfterYield params k => size params = sz /\ sz <= Z.of_nat k
    | Finished => False
    end ->
    fst (for_chunks server fuel self src g first_chunk rows_processed st) <> Ok n.
Proof.
  intros Ht Hfull. induction fuel as [|fuel IH]; intros g fc rp st n Hg.
  - discriminate.
  - cbn [for_chunks]. unfold bind at 1.
    assert (exists params, size params = sz
              /\ fetch_data_stream_next server self src g st
                 = fetch_page server self src params st) as (params & Hsz & ->).
    { destruct g as [params|params k|]; [by exists params| |done].
      destruct Hg as [Hsz Hk]. exists (advance params). split; [done|].
      cbn [fetch_data_stream_next].
      replace (Z.of_nat k <? size (advance params)) with false; [reflexivity|].
      symmetry. apply Z.ltb_ge. simpl. lia. }
    destruct (Hfull (sent st) {| req_url := url src; req_params := params;
                                 req_timeout := timeout |})
      as (r & rs & Hresp & Hlen).
    rewrite (fetch_page_yields _ _ _ _ _ _ _ _ Ht Hresp).
    unfold bind.
    destruct (load_chunk _ _ _ _) as [[[]|e|] st1]; try discriminate.
    apply IH. split; [done|lia].
Qed.

(** X4: if the source answers every request with a page that is not
    empty and has at least as many records as the page size (for a page
    size of zero or less: any page that is not empty), the reader never
    ends: no number of steps lets it finish, and loading the source never
    ends well. *)
Theorem reader_never_ends_on_full_pages `{Libs : Libraries} server self src timeout fuel st :
  settings (self_config self) !! "api_timeout_seconds" = Some timeout ->
  (forall hist req, exists r rs,
      server hist req = JsonBody (Some (r :: rs))
      /\ size (source_api_params src) <= Z.of_nat (length (r :: rs))) ->
  fst (drain server fuel self src (fetch_data_stream src) st) = Diverge
  /\ fst (process_source server fuel self src st) <> Ok tt.
Proof.
  intros Ht Hfull. split.
  - by eapply drain_full_pages_diverges.
  - unfold process_source, bind.
    destruct (for_chunks _ _ _ _ _ _ _ _) as [[n|e|] st1] eqn:Hrun;
      try discriminate.
    exfalso.
    eapply (for_chunks_full_pages_not_ok server self src timeout _ fuel Ht Hfull
              (fetch_data_stream src) true 0%nat st n); [done|].
    by rewrite Hrun.
Qed.

Lemma reader_never_ends_on_full_pages_witness :
  let self := demo_pipeline paging_config in
  let src := source "general" 0 in
  settings (self_config self) !! "api_timeout_seconds" = Some (YInt 30)
  /\ (forall hist req, exists r rs,
        endless_server hist req = JsonBody (Some (r :: rs))
        /\ size (source_api_params src) <= Z.of_nat (length (r :: rs)))
  /\ fst (drain endless_server 1000 self src (fetch_data_stream src) fresh)
     = Diverge.
Proof.
  intros self src.
  assert (settings (self_config self) !! "api_timeout_seconds" = Some (YInt 30))
    as Ht.
  { vm_compute. reflexivity. }
  assert (forall hist req, exists r rs,
             endless_server hist req = JsonBody (Some (r :: rs))
             /\ size (source_api_params src) <= Z.of_nat (length (r :: rs)))
    as Hfull.
  { intros hist req. exists (audit_record 0), []. split; [reflexivity|].
    simpl. lia. }
  split; [exact Ht|]. split; [exact Hfull|].
  exact (proj1 (reader_never_ends_on_full_pages endless_server self src
                  (YInt 30) 1000 fresh Ht Hfull)).
Defined.

(** X5: the request timeout is not among the settings that the
    configuration check requires.  With a configuration that has the
    three required settings but no [api_timeout_seconds], the check
    passes, and loading any source raises [KeyError] for that setting
    before a single request is sent, leaving the state as it was. *)
Theorem missing_timeout_fails_before_request `{Libs : Libraries} server fuel self src st :
  (forall key, key ∈ required_settings ->
               is_Some (settings (self_config self) !! key)) ->
  settings (self_config self) !! "api_timeout_seconds" = None ->
  _validate_config (self_config self) st = (Ok tt, st)
  /\ process_source server (S fuel) self src st
     = (Raise (KeyError "api_timeout_seconds"), st)
  /\ fst (merge_body server (S fuel) self st)
     = match sources (self_config self) with
       | [] => Raise IndexError
       | _ => Raise (KeyError "api_timeout_seconds")
       end.
Proof.
  intros Hreq Hnone.
  assert (process_source server (S fuel) self src st
          = (Raise (KeyError "api_timeout_seconds"), st)) as Hsrc.
  { unfold process_source, bind. cbn [for_chunks]. unfold bind.
    unfold fetch_data_stream. cbn [fetch_data_stream_next].
    unfold fetch_page, bind, setting. by rewrite Hnone. }
  split; [|split; [exact Hsrc|]].
  - unfold _validate_config.
    assert (forallb (fun key => bool_decide (is_Some (settings (self_config self) !! key)))
                    required_settings = true) as ->; [|done].
    apply forallb_forall. intros key Hkey.
    apply bool_decide_eq_true, Hreq. by apply list_elem_of_In.
  - unfold merge_body, bind.
    destruct (sources (self_config self)) as [|src0 srcs] eqn:Hsrcs.
    + simpl. unfold setting.
      destruct (Hreq "primary_join_key") as [pk Hpk].
      { unfold required_settings. do 2 apply list_elem_of_further.
        apply list_elem_of_here. }
      rewrite Hpk. reflexivity.
    + cbn [for_sources]. unfold bind.
      unfold process_source, bind. cbn [for_chunks]. unfold bind.
      unfold fetch_data_stream. cbn [fetch_data_stream_next].
      unfold fetch_page, bind, setting. by rewrite Hnone.
Qed.

Lemma missing_timeout_fails_before_request_witness :
  let self := demo_pipeline no_timeout_config in
  (forall key, key ∈ required_settings ->
               is_Some (settings (self_config self) !! key))
  /\ settings (self_config self) !! "api_timeout_seconds" = None
  /\ process_source endless_server 1 self (source "general" 10) fresh
     = (Raise (KeyError "api_timeout_seconds"), fresh).
Proof.
  intros self.
  assert (forall key, key ∈ required_settings ->
                      is_Some (settings (self_config self) !! key)) as Hreq.
  { intros key Hkey. unfold required_settings in Hkey.
    repeat (apply elem_of_cons in Hkey as [->|Hkey]; [by eexists|]).
    by apply elem_of_nil in Hkey. }
  assert (settings (self_config self) !! "api_timeout_seconds" = None) as Hnone.
  { vm_compute. reflexivity. }
  split; [exact Hreq|]. split; [exact Hnone|].
  destruct (missing_timeout_fails_before_request endless_server 0 self
              (source "general" 10) fresh Hreq Hnone) as (_ & Hsrc & _).
  exact Hsrc.
Defined.




(** ** Loading a source *)






















(** ** The run as a whole *)



(** Cleanup of a working directory that holds nothing but the database
    file and files whose name ends in [.csv]. *)
Lemma cleanup_tidy self st :
  temp_dir self ∈ dirs (fs st) ->
  dir_exists (db_path self) (fs st) = false ->
  (forall p, p ∈ entries (temp_dir self) (fs st) ->
             p ∈ files (fs st) /\ (p ∉ dirs (fs st))
             /\ (p = db_path self \/ ends_with ".csv" (basename p) = true)) ->
  exists st',
    cleanup self st = (Ok tt, st')
    /\ sent st' = sent st
    /\ (forall d, d ∈ dirs (fs st') <-> d ∈ dirs (fs st) /\ d <> temp_dir self)
    /\ (forall p, p ∈ files (fs st')
                  <-> p ∈ files (fs st) /\ p <> db_path self
                      /\ ~ child_of (temp_dir self) p).
Proof.
  intros Htd Hdb Hentries. unfold cleanup. unfold bind at 1.
  assert (exists st1,
             (if path_exists (db_path self) (fs st)
              then unlink_database (db_path self) st else ret tt st) = (Ok tt, st1)
             /\ sent st1 = sent st /\ dirs (fs st1) = dirs (fs st)
             /\ forall p, p ∈ files (fs st1)
                          <-> p ∈ files (fs st) /\ p <> db_path self)
    as (st1 & -> & Hsent1 & Hdirs1 & Hfiles1).
  { unfold path_exists, unlink_database, unlink. rewrite Hdb. simpl.
    case_bool_decide as Hfile; eexists; (split; [reflexivity|]); simpl;
      (split; [done|]); (split; [done|]); intros p.
    - rewrite elem_of_difference, elem_of_singleton. tauto.
    - split; [|tauto]. intros Hp. split; [done|]. by intros ->. }
  unfold bind at 1.
  destruct (unlink_each_ok (glob_csv (temp_dir self) (fs st1)) st1)
    as (st2 & -> & Hsent2 & _ & Hdirs2 & Hfiles2).
  { apply NoDup_elements. }
  { intros p Hp. apply elem_of_glob_csv_iff in Hp as (Hwhere & Hchild & _).
    rewrite Hdirs1, Hfiles1 in Hwhere.
    destruct (Hentries p) as (Hfile & Hnodir & Hkind).
    { apply elem_of_entries. split; [done|]. tauto. }
    apply Hfiles1. split; [done|].
    destruct Hwhere as [?|[_ ?]]; done. }
  assert (entries (temp_dir self) (fs st2) = ∅) as Hempty.
  { apply set_eq. intros p. rewrite elem_of_entries, Hdirs2, Hdirs1, Hfiles2, Hfiles1.
    split; [|by intros H%not_elem_of_empty].
    intros (Hchild & Hwhere).
    assert (p ∈ entries (temp_dir self) (fs st)) as Hin.
    { apply elem_of_entries. split; [done|]. tauto. }
    destruct (Hentries p Hin) as (Hfile & Hnodir & Hkind).
    destruct Hwhere as [?|((_ & Hne) & Hnot)]; [done|].
    destruct Hkind as [?|Hcsv]; [done|].
    exfalso. apply Hnot. apply elem_of_glob_csv_iff.
    rewrite Hfiles1. tauto. }
  unfold path_exists, dir_exists.
  rewrite (bool_decide_eq_true_2 (_ \/ _ \/ temp_dir self ∈ dirs (fs st2)))
    by (rewrite Hdirs2, Hdirs1; tauto).
  simpl. unfold on_fs, rmdir.
  rewrite bool_decide_eq_true_2 by (rewrite Hdirs2, Hdirs1; done).
  eexists. split; [reflexivity|]. simpl.
  split; [congruence|]. split.
  - intros d. rewrite elem_of_difference, elem_of_singleton, Hdirs2, Hdirs1. tauto.
  - intros p. rewrite Hfiles2, Hfiles1. split.
    + intros ((Hfile & Hne) & Hnot). split; [done|]. split; [done|].
      intros Hchild.
      destruct (Hentries p) as (_ & _ & [?|Hcsv]); [|done|].
      { apply elem_of_entries. tauto. }
      apply Hnot, elem_of_glob_csv_iff. rewrite Hfiles1. tauto.
    + intros (Hfile & Hne & Hnot). split; [done|].
      intros Hglob. by apply elem_of_glob_csv_iff in Hglob as (_ & ? & _).
Qed.

(** X13: when the working directory holds nothing but the database file
    and regular files whose name ends in [.csv], cleanup ends well: the
    directory and all its entries are gone, every other directory and
    every file outside it (other than a database file placed elsewhere)
    is kept, and no request is sent. *)
Theorem cleanup_removes_tidy_directory self st :
  temp_dir self ∈ dirs (fs st) ->
  dir_exists (db_path self) (fs st) = false ->
  (forall p, p ∈ entries (temp_dir self) (fs st) ->
             p ∈ files (fs st) /\ (p ∉ dirs (fs st))
             /\ (p = db_path self \/ ends_with ".csv" (basename p) = true)) ->
  exists st',
    cleanup self st = (Ok tt, st')
    /\ sent st' = sent st
    /\ (temp_dir self ∉ dirs (fs st'))
    /\ entries (temp_dir self) (fs st') = ∅
    /\ (forall d, d ∈ dirs (fs st') <-> d ∈ dirs (fs st) /\ d <> temp_dir self)
    /\ (forall p, p ∈ files (fs st')
                  <-> p ∈ files (fs st) /\ p <> db_path self
                      /\ ~ child_of (temp_dir self) p).
Proof.
  intros Htd Hdb Hentries.
  destruct (cleanup_tidy self st Htd Hdb Hentries)
    as (st' & Hrun & Hsent & Hdirs & Hfiles).
  exists st'. split; [done|]. split; [done|]. split; [|split; [|done]].
  - rewrite Hdirs. tauto.
  - apply set_eq. intros p. rewrite elem_of_entries, Hdirs, Hfiles.
    split; [|by intros H%not_elem_of_empty].
    intros (Hchild & [[Hd Hne]|(_ & _ & Hnot)]); [|done].
    destruct (Hentries p) as (_ & Hnodir & _); [|done].
    apply elem_of_entries. tauto.
Qed.

Lemma cleanup_removes_tidy_directory_witness :
  let self := demo_pipeline paging_config in
  temp_dir self ∈ dirs (fs tidy)
  /\ dir_exists (db_path self) (fs tidy) = false
  /\ (forall p, p ∈ entries (temp_dir self) (fs tidy) ->
                p ∈ files (fs tidy) /\ (p ∉ dirs (fs tidy))
                /\ (p = db_path self \/ ends_with ".csv" (basename p) = true))
  /\ exists st',
      cleanup self tidy = (Ok tt, st')
      /\ (temp_dir self ∉ dirs (fs st'))
      /\ entries (temp_dir self) (fs st') = ∅.
Proof.
  intros self.
  assert (temp_dir self ∈ dirs (fs tidy)) as Htd.
  { apply (bool_decide_unpack _). vm_compute. exact I. }
  assert (dir_exists (db_path self) (fs tidy) = false) as Hdb.
  { vm_compute. reflexivity. }
  assert (forall p, p ∈ entries (temp_dir self) (fs tidy) ->
                    p ∈ files (fs tidy) /\ (p ∉ dirs (fs tidy))
                    /\ (p = db_path self \/ ends_with ".csv" (basename p) = true))
    as Hentries.
  { intros p Hp.
    apply elem_of_entries in Hp as ((_ & Hparent) & Hwhere).
    unfold tidy in Hwhere. cbn [fs dirs files] in Hwhere.
    rewrite elem_of_singleton, !elem_of_union, !elem_of_singleton in Hwhere.
    destruct Hwhere as [->|[[[->| ->]| ->]| ->]].
    - discriminate Hparent.
    - split; [apply (bool_decide_unpack _); vm_compute; exact I|].
      split; [apply (bool_decide_unpack _); vm_compute; exact I|].
      left. reflexivity.
    - split; [apply (bool_decide_unpack _); vm_compute; exact I|].
      split; [apply (bool_decide_unpack _); vm_compute; exact I|].
      right. vm_compute. reflexivity.
    - split; [apply (bool_decide_unpack _); vm_compute; exact I|].
      split; [apply (bool_decide_unpack _); vm_compute; exact I|].
      right. vm_compute. reflexivity.
    - discriminate Hparent. }
  split; [exact Htd|]. split; [exact Hdb|]. split; [exact Hentries|].
  destruct (cleanup_removes_tidy_directory self tidy Htd Hdb Hentries)
    as (st' & Hrun & _ & Hgone & Hempty & _).
  exists st'. split; [exact Hrun|]. split; [exact Hgone | exact Hempty].
Defined.

(** ** Initialisation *)

Lemma validate_config_present loaded st :
  (forall key, key ∈ required_settings -> is_Some (settings loaded !! key)) ->
  _validate_config loaded st = (Ok tt, st).
Proof.
  intros Hreq. unfold _validate_config.
  assert (forallb (fun key => bool_decide (is_Some (settings loaded !! key)))
                  required_settings = true) as ->; [|done].
  apply forallb_forall. intros key Hkey.
  apply bool_decide_eq_true, Hreq. by apply list_elem_of_In.
Qed.

Lemma init_after_validation loaded st d :
  (forall key, key ∈ required_settings -> is_Some (settings loaded !! key)) ->
  settings loaded !! "download_directory" = Some d ->
  __init__ loaded st
  = (dir <- as_path d ;;
     on_fs (mkdir_exist_ok dir) ;;
     duckdb_connect (dir ++ ["temp.duckdb"]) ;;
     conn_execute (pragma "enable_compression") ;;
     conn_execute (pragma_set "memory_limit" "4GB") ;;
     ret {| self_config := loaded; temp_dir := dir;
            db_path := dir ++ ["temp.duckdb"] |}) st.
Proof.
  intros Hreq Hd. unfold __init__, _load_config.
  unfold bind at 1. unfold bind at 1.
  rewrite (validate_config_present _ _ Hreq). unfold ret at 1.
  unfold bind at 1. unfold setting. rewrite Hd. reflexivity.
Qed.

Lemma parent_child (d : path) (n : string) : parent (d ++ [n]) = d.
Proof. unfold parent. apply removelast_last. Qed.

(** The store has no pragma function [enable_compression]: the statement
    raises and changes nothing. *)
Lemma compression_pragma_missing st :
  conn_execute (pragma "enable_compression") st
  = (Raise (DuckDBError (CatalogPragmaMissing "enable_compression")), st).
Proof.
  unfold conn_execute, pragma.
  replace (bool_decide ("enable_compression" ∈ pragma_functions)) with false;
    [reflexivity|].
  symmetry. apply bool_decide_eq_false. unfold pragma_functions.
  rewrite !elem_of_cons, elem_of_nil. intros H.
  repeat (destruct H as [H|H]; [discriminate H|]). exact H.
Qed.

(** Initialisation never returns a pipeline: it raises, after sending no
    request and deleting nothing. *)
Lemma init_raises loaded st :
  exists e st',
    __init__ loaded st = (Raise e, st')
    /\ sent st' = sent st
    /\ dirs (fs st) ⊆ dirs (fs st')
    /\ files (fs st) ⊆ files (fs st').
Proof.
  unfold __init__, _load_config, _validate_config.
  destruct (forallb _ required_settings).
  2: { eexists _, st. by repeat split. }
  cbv [bind ret raise setting].
  destruct (settings loaded !! "download_directory") as [d|].
  2: { eexists _, st. by repeat split. }
  destruct d as [| | |s]; try (eexists _, st; by repeat split).
  cbv [as_path ret on_fs].
  destruct (mkdir_exist_ok (Path s) (fs st)) as [e|f1] eqn:Hmk.
  { eexists _, st. by repeat split. }
  assert (dirs (fs st) ⊆ dirs f1 /\ files f1 = files (fs st)) as [Hd1 Hf1].
  { unfold mkdir_exist_ok in Hmk. repeat case_match; simplify_eq; simpl;
      split; set_solver. }
  unfold duckdb_connect. cbn [fs set_fs].
  case_bool_decide as Hfile.
  - rewrite compression_pragma_missing.
    eexists _, _. split; [reflexivity|]. simpl. split; [done|].
    split; [done|]. by rewrite Hf1.
  - destruct (write_file _ f1) as [e|f2] eqn:Hw.
    { eexists _, _. split; [reflexivity|]. simpl. split; [done|].
      split; [done|]. by rewrite Hf1. }
    rewrite compression_pragma_missing.
    eexists _, _. split; [reflexivity|]. simpl. split; [done|].
    unfold write_file in Hw. case_match; simplify_eq. simpl.
    split; [done|]. rewrite Hf1. set_solver.
Qed.

(** X14: initialisation never gets past the first statement it sends to
    the store.  Whenever the three required settings are present, the
    working directory is named by a string, it exists or can be made (it
    is no regular file and its parent exists), and no directory stands
    where the database file goes, initialisation raises the error of the
    store for the pragma [enable_compression], which the store does not
    have.  By then the working directory and the database file exist:
    they are all that has been added to the file system; no request has
    been sent, and the store holds the relations of an existing database
    file, or none if the file is new. *)
Theorem init_stops_at_compression_pragma loaded st d :
  (forall key, key ∈ required_settings -> is_Some (settings loaded !! key)) ->
  settings loaded !! "download_directory" = Some (YStr d) ->
  let dir := Path d in
  let db := dir ++ ["temp.duckdb"] in
  (dir_exists dir (fs st) = true
   \/ (dir ∉ files (fs st)) /\ dir_exists (parent dir) (fs st) = true) ->
  (db ∈ files (fs st) \/ db ∉ dirs (fs st)) ->
  exists st',
    __init__ loaded st
    = (Raise (DuckDBError (CatalogPragmaMissing "enable_compression")), st')
    /\ sent st' = sent st
    /\ dir_exists dir (fs st') = true
    /\ db ∈ files (fs st')
    /\ (forall p, p ∈ dirs (fs st') <-> p ∈ dirs (fs st)
                                        \/ (p = dir /\ dir_exists dir (fs st) = false))
    /\ (forall p, p ∈ files (fs st') <-> p ∈ files (fs st) \/ p = db)
    /\ tables st' = (if decide (db ∈ files (fs st)) then tables st else ∅).
Proof.
  intros Hreq Hd dir db Hdir Hdb.
  rewrite (init_after_validation _ _ _ Hreq Hd).
  unfold as_path, bind at 1. unfold ret at 1. fold dir.
  unfold bind at 1. unfold on_fs, mkdir_exist_ok.
  assert (exists f1,
             (if dir_exists dir (fs st) then inr (fs st)
              else if bool_decide (dir ∈ files (fs st)) then inl (OSError dir)
              else if dir_exists (parent dir) (fs st)
                   then inr {| dirs := {[dir]} ∪ dirs (fs st);
                               files := files (fs st) |}
                   else inl (OSError dir)) = inr f1
             /\ files f1 = files (fs st)
             /\ dir_exists dir f1 = true
             /\ (db ∈ files (fs st) \/ db ∉ dirs f1)
             /\ (forall p, p ∈ dirs f1
                           <-> p ∈ dirs (fs st)
                               \/ (p = dir /\ dir_exists dir (fs st) = false)))
    as (f1 & -> & Hfiles1 & Hdir1 & Hdb1 & Hdirs1).
  { destruct (dir_exists dir (fs st)) eqn:Hex.
    - exists (fs st). split; [done|]. split; [done|]. split; [done|].
      split; [done|]. intros p. split; [by left|]. by intros [?|[_ ?]].
    - destruct Hdir as [?|[Hnofile Hparent]]; [done|].
      rewrite bool_decide_eq_false_2 by done. rewrite Hparent.
      eexists. split; [reflexivity|]. simpl. split; [done|]. split.
      { unfold dir_exists. simpl. apply bool_decide_eq_true.
        right. right. apply elem_of_union_l. by apply elem_of_singleton. }
      split.
      + destruct Hdb as [?|Hnodir]; [by left|]. right.
        rewrite not_elem_of_union, not_elem_of_singleton. split; [|done].
        intros Heq. apply (f_equal length) in Heq. unfold db in Heq.
        rewrite length_app in Heq. simpl in Heq. lia.
      + intros p. rewrite elem_of_union, elem_of_singleton. tauto. }
  unfold bind at 1. unfold duckdb_connect. cbn [fs set_fs sent tables].
  rewrite Hfiles1.
  case_bool_decide as Hfile.
  - unfold bind at 1. rewrite compression_pragma_missing.
    eexists. split; [reflexivity|]. cbn [sent tables fs set_fs].
    split; [done|]. split; [done|]. split; [by rewrite Hfiles1|].
    split; [done|]. split.
    + intros p. rewrite Hfiles1. split; [by left|]. by intros [?| ->].
    + by rewrite decide_True.
  - unfold write_file.
    destruct Hdb1 as [?|Hnodir]; [done|].
    rewrite (bool_decide_eq_true_2 (db <> [] /\ db ∉ dirs f1)).
    2: { split; [|done]. unfold db. by destruct dir. }
    unfold db at 1. rewrite parent_child, Hdir1. cbn [andb].
    unfold bind at 1. rewrite compression_pragma_missing.
    eexists. split; [reflexivity|]. cbn [sent tables fs dirs files].
    split; [done|]. split.
    { unfold dir_exists in *. simpl. done. }
    split; [apply elem_of_union_l; by apply elem_of_singleton|].
    split; [done|]. split.
    + intros p. rewrite elem_of_union, elem_of_singleton, Hfiles1. tauto.
    + by rewrite decide_False.
Qed.

Lemma init_stops_at_compression_pragma_witness :
  let dir := Path "downloads" in
  let db := dir ++ ["temp.duckdb"] in
  (forall key, key ∈ required_settings ->
               is_Some (settings paging_config !! key))
  /\ settings paging_config !! "download_directory" = Some (YStr "downloads")
  /\ (dir_exists dir (fs fresh) = true
      \/ (dir ∉ files (fs fresh)) /\ dir_exists (parent dir) (fs fresh) = true)
  /\ (db ∈ files (fs fresh) \/ db ∉ dirs (fs fresh))
  /\ exists st',
      __init__ paging_config fresh
      = (Raise (DuckDBError (CatalogPragmaMissing "enable_compression")), st')
      /\ sent st' = []
      /\ dir_exists dir (fs st') = true
      /\ db ∈ files (fs st').
Proof.
  intros dir db.
  assert (forall key, key ∈ required_settings ->
                      is_Some (settings paging_config !! key)) as Hreq.
  { intros key Hkey. unfold required_settings in Hkey.
    repeat (apply elem_of_cons in Hkey as [->|Hkey]; [by eexists|]).
    by apply elem_of_nil in Hkey. }
  assert (settings paging_config !! "download_directory"
          = Some (YStr "downloads")) as Hd.
  { vm_compute. reflexivity. }
  assert (dir_exists dir (fs fresh) = true
          \/ (dir ∉ files (fs fresh)) /\ dir_exists (parent dir) (fs fresh) = true)
    as Hdir.
  { right. split; [apply not_elem_of_empty|]. vm_compute. reflexivity. }
  assert (db ∈ files (fs fresh) \/ db ∉ dirs (fs fresh)) as Hdb.
  { right. apply not_elem_of_empty. }
  split; [exact Hreq|]. split; [exact Hd|]. split; [exact Hdir|].
  split; [exact Hdb|].
  destruct (init_stops_at_compression_pragma paging_config fresh "downloads"
              Hreq Hd Hdir Hdb)
    as (st' & Hrun & Hsent & Hex & Hfile & _).
  exists st'. split; [exact Hrun|]. split; [exact Hsent|].
  split; [exact Hex | exact Hfile].
Defined.

(** X15: the configuration check looks at the presence of the required
    settings only.  When they are present but [download_directory] is no
    string (a number, a boolean, null), the check passes and
    initialisation raises [TypeError] when it builds the path, with
    nothing made and nothing sent. *)
Theorem init_rejects_non_string_directory loaded st d :
  (forall key, key ∈ required_settings -> is_Some (settings loaded !! key)) ->
  settings loaded !! "download_directory" = Some d ->
  (forall s, d <> YStr s) ->
  _validate_config loaded st = (Ok tt, st)
  /\ __init__ loaded st = (Raise TypeError, st).
Proof.
  intros Hreq Hd Hnot. split; [by apply validate_config_present|].
  rewrite (init_after_validation _ _ _ Hreq Hd).
  unfold bind. destruct d as [| | |s]; try reflexivity.
  by destruct (Hnot s).
Qed.

Lemma init_rejects_non_string_directory_witness :
  let loaded := {| settings := list_to_map [("output_filename", YNull);
                                            ("download_directory", YInt 5);
                                            ("primary_join_key", YNull)];
                   sources := [] |} in
  (forall key, key ∈ required_settings -> is_Some (settings loaded !! key))
  /\ settings loaded !! "download_directory" = Some (YInt 5)
  /\ (forall s, YInt 5 <> YStr s)
  /\ _validate_config loaded fresh = (Ok tt, fresh)
  /\ __init__ loaded fresh = (Raise TypeError, fresh).
Proof.
  intros loaded.
  assert (forall key, key ∈ required_settings ->
                      is_Some (settings loaded !! key)) as Hreq.
  { intros key Hkey. unfold required_settings in Hkey.
    repeat (apply elem_of_cons in Hkey as [->|Hkey]; [by eexists|]).
    by apply elem_of_nil in Hkey. }
  assert (settings loaded !! "download_directory" = Some (YInt 5)) as Hd.
  { vm_compute. reflexivity. }
  assert (forall s, YInt 5 <> YStr s) as Hnot.
  { discriminate. }
  split; [exact Hreq|]. split; [exact Hd|]. split; [exact Hnot|].
  exact (init_rejects_non_string_directory loaded fresh (YInt 5) Hreq Hd Hnot).
Defined.

(** X16: the working directory is made without its parents.  When it does
    not exist and either a regular file has its name or its parent
    directory is missing, initialisation raises the [OSError] of [mkdir]
    and leaves the state as it was: no directory, no database file, no
    request. *)
Theorem init_fails_when_directory_cannot_be_made loaded st d :
  (forall key, key ∈ required_settings -> is_Some (settings loaded !! key)) ->
  settings loaded !! "download_directory" = Some (YStr d) ->
  dir_exists (Path d) (fs st) = false ->
  (Path d ∈ files (fs st) \/ dir_exists (parent (Path d)) (fs st) = false) ->
  __init__ loaded st = (Raise (OSError (Path d)), st).
Proof.
  intros Hreq Hd Hnone Hwhy.
  rewrite (init_after_validation _ _ _ Hreq Hd).
  unfold as_path, bind at 1. unfold ret at 1.
  unfold bind at 1. unfold on_fs, mkdir_exist_ok. rewrite Hnone.
  case_bool_decide as Hfile; [reflexivity|].
  destruct Hwhy as [?|Hparent]; [done|]. by rewrite Hparent.
Qed.

Lemma init_fails_when_directory_cannot_be_made_witness :
  let loaded := {| settings := list_to_map [("output_filename", YStr "out.csv.gz");
                                            ("download_directory", YStr "work/tmp");
                                            ("primary_join_key", YStr "report_id")];
                   sources := [] |} in
  (forall key, key ∈ required_settings -> is_Some (settings loaded !! key))
  /\ settings loaded !! "download_directory" = Some (YStr "work/tmp")
  /\ dir_exists (Path "work/tmp") (fs fresh) = false
  /\ (Path "work/tmp" ∈ files (fs fresh)
      \/ dir_exists (parent (Path "work/tmp")) (fs fresh) = false)
  /\ __init__ loaded fresh = (Raise (OSError ["work"; "tmp"]), fresh).
Proof.
  intros loaded.
  assert (forall key, key ∈ required_settings ->
                      is_Some (settings loaded !! key)) as Hreq.
  { intros key Hkey. unfold required_settings in Hkey.
    repeat (apply elem_of_cons in Hkey as [->|Hkey]; [by eexists|]).
    by apply elem_of_nil in Hkey. }
  assert (settings loaded !! "download_directory" = Some (YStr "work/tmp")) as Hd.
  { vm_compute. reflexivity. }
  assert (dir_exists (Path "work/tmp") (fs fresh) = false) as Hnone.
  { vm_compute. reflexivity. }
  assert (Path "work/tmp" ∈ files (fs fresh)
          \/ dir_exists (parent (Path "work/tmp")) (fs fresh) = false) as Hwhy.
  { right. vm_compute. reflexivity. }
  split; [exact Hreq|]. split; [exact Hd|]. split; [exact Hnone|].
  split; [exact Hwhy|].
  exact (init_fails_when_directory_cannot_be_made loaded fresh "work/tmp"
           Hreq Hd Hnone Hwhy).
Defined.

(** X17: a run that starts without its working directory leaves the
    directory and the database file behind, with cleanup enabled or not:
    initialisation makes both and then raises the error of the store for
    the pragma [enable_compression], so that [merge_data] and its
    cleanup are never reached.  No request has been sent, and the file
    system is the one before the run with the directory and the database
    file added. *)
Theorem run_leaves_working_directory_behind `{Libs : Libraries} server fuel loaded st d :
  (forall key, key ∈ required_settings -> is_Some (settings loaded !! key)) ->
  settings loaded !! "download_directory" = Some (YStr d) ->
  let dir := Path d in
  let db := dir ++ ["temp.duckdb"] in
  dir_exists dir (fs st) = false ->
  (dir ∉ files (fs st)) ->
  dir_exists (parent dir) (fs st) = true ->
  (db ∉ dirs (fs st)) ->
  (db ∉ files (fs st)) ->
  main server fuel loaded st
  = (Raise (DuckDBError (CatalogPragmaMissing "enable_compression")),
     {| sent := sent st;
        tables := ∅;
        fs := {| dirs := {[dir]} ∪ dirs (fs st);
                 files := {[db]} ∪ files (fs st) |} |}).
Proof.
  intros Hreq Hd dir db Hnone Hnofile Hparent Hdbdir Hdbfile.
  assert (db <> dir) as Hdbne.
  { intros Heq. apply (f_equal length) in Heq. unfold db in Heq.
    rewrite length_app in Heq. simpl in Heq. lia. }
  unfold main. unfold bind at 1.
  rewrite (init_after_validation _ _ _ Hreq Hd).
  unfold as_path, bind at 1. unfold ret at 1. fold dir.
  unfold bind at 1. unfold on_fs, mkdir_exist_ok. rewrite Hnone.
  rewrite bool_decide_eq_false_2 by done. rewrite Hparent.
  unfold bind at 1. unfold duckdb_connect. cbn [fs set_fs sent tables files].
  rewrite bool_decide_eq_false_2 by done.
  unfold write_file. cbn [dirs files]. fold db.
  rewrite (bool_decide_eq_true_2 (db <> [] /\ db ∉ {[dir]} ∪ dirs (fs st))).
  2: { split; [unfold db; by destruct dir|].
       rewrite not_elem_of_union, not_elem_of_singleton. done. }
  unfold db at 1. rewrite parent_child.
  unfold dir_exists. cbn [dirs].
  rewrite (bool_decide_eq_true_2 (_ \/ _ \/ dir ∈ {[dir]} ∪ dirs (fs st))).
  2: { right. right. apply elem_of_union_l. by apply elem_of_singleton. }
  cbn [andb]. unfold bind at 1. by rewrite compression_pragma_missing.
Qed.

Lemma run_leaves_working_directory_behind_witness :
  (forall key, key ∈ required_settings -> is_Some (settings paging_config !! key))
  /\ settings paging_config !! "download_directory" = Some (YStr "downloads")
  /\ cleanup_enabled paging_config = true
  /\ dir_exists (Path "downloads") (fs fresh) = false
  /\ (Path "downloads" ∉ files (fs fresh))
  /\ dir_exists (parent (Path "downloads")) (fs fresh) = true
  /\ (Path "downloads" ++ ["temp.duckdb"] ∉ dirs (fs fresh))
  /\ (Path "downloads" ++ ["temp.duckdb"] ∉ files (fs fresh))
  /\ main three_page_server 5 paging_config fresh
     = (Raise (DuckDBError (CatalogPragmaMissing "enable_compression")),
        {| sent := [];
           tables := ∅;
           fs := {| dirs := {[Path "downloads"]} ∪ dirs (fs fresh);
                    files := {[Path "downloads" ++ ["temp.duckdb"]]}
                             ∪ files (fs fresh) |} |}).
Proof.
  assert (forall key, key ∈ required_settings ->
                      is_Some (settings paging_config !! key)) as Hreq.
  { intros key Hkey. unfold required_settings in Hkey.
    repeat (apply elem_of_cons in Hkey as [->|Hkey]; [by eexists|]).
    by apply elem_of_nil in Hkey. }
  assert (settings paging_config !! "download_directory"
          = Some (YStr "downloads")) as Hd.
  { vm_compute. reflexivity. }
  assert (cleanup_enabled paging_config = true) as Hon.
  { vm_compute. reflexivity. }
  assert (dir_exists (Path "downloads") (fs fresh) = false) as Hnone.
  { vm_compute. reflexivity. }
  assert (Path "downloads" ∉ files (fs fresh)) as Hnofile.
  { apply not_elem_of_empty. }
  assert (dir_exists (parent (Path "downloads")) (fs fresh) = true) as Hparent.
  { vm_compute. reflexivity. }
  assert (Path "downloads" ++ ["temp.duckdb"] ∉ dirs (fs fresh)) as Hdbdir.
  { apply not_elem_of_empty. }
  assert (Path "downloads" ++ ["temp.duckdb"] ∉ files (fs fresh)) as Hdbfile.
  { apply not_elem_of_empty. }
  split; [exact Hreq|]. split; [exact Hd|]. split; [exact Hon|].
  split; [exact Hnone|]. split; [exact Hnofile|]. split; [exact Hparent|].
  split; [exact Hdbdir|]. split; [exact Hdbfile|].
  exact (run_leaves_working_directory_behind three_page_server 5 paging_config
           fresh "downloads" Hreq Hd Hnone Hnofile Hparent Hdbdir Hdbfile).
Defined.

(** X10: for every configuration and every state, the run [main] ends in
    initialisation and never reaches the merge: [main] raises what
    [__init__] raises, and [__init__] always raises, a configuration or
    file-system error or, once the database file is opened, the error of
    the store for the pragma [enable_compression].  No request is sent,
    and nothing in the file system is deleted. *)
Theorem main_never_reaches_the_merge `{Libs : Libraries} server fuel loaded st :
  exists e st',
    __init__ loaded st = (Raise e, st')
    /\ main server fuel loaded st = (Raise e, st')
    /\ sent st' = sent st
    /\ dirs (fs st) ⊆ dirs (fs st')
    /\ files (fs st) ⊆ files (fs st').
Proof.
  destruct (init_raises loaded st) as (e & st' & Hinit & Hsent & Hdirs & Hfiles).
  exists e, st'. split; [exact Hinit|]. split; [|done].
  unfold main, bind. by rewrite Hinit.
Qed.

(** ** The endpoint probe *)

Lemma probe_effect server key url sent :
  snd (fst (fst (TestEndpoints.probe server key url sent))) = url
  /\ snd (TestEndpoints.probe server key url sent)
     = sent ++ [probe_request_for key url].
Proof.
  unfold TestEndpoints.probe. cbn [fst snd]. split; [|reflexivity].
  destruct (server sent _) as [msg|code text [msg|data]];
    [reflexivity|destruct (code =? 200); reflexivity..].
Qed.

Lemma probe_flag server key url sent :
  fst (fst (fst (TestEndpoints.probe server key url sent)))
  = answers (server sent (probe_request_for key url)).
Proof.
  unfold TestEndpoints.probe, answers. cbn [fst snd].
  fold (probe_request_for key url).
  destruct (server sent (probe_request_for key url))
    as [msg|code text [msg|data]];
    [reflexivity|destruct (code =? 200); reflexivity..].
Qed.

Lemma probe_each_spec server key urls :
  forall results sent,
    map (fun r => snd (fst r))
        (fst (TestEndpoints.probe_each server key urls results sent))
    = map (fun r => snd (fst r)) results ++ urls
    /\ snd (TestEndpoints.probe_each server key urls results sent)
       = sent ++ map (probe_request_for key) urls.
Proof.
  induction urls as [|url urls IH]; intros results sent;
    cbn [TestEndpoints.probe_each map].
  - by rewrite !app_nil_r.
  - destruct (probe_effect server key url sent) as (Hurl & Hsent).
    destruct (TestEndpoints.probe server key url sent) as [result sent1].
    cbn [fst snd] in Hurl, Hsent. subst sent1.
    destruct (IH (results ++ [result]) (sent ++ [probe_request_for key url]))
      as (-> & ->).
    rewrite map_app, <- !app_assoc. cbn [map app]. by rewrite Hurl.
Qed.

(** X18: whatever the endpoints answer, and also when requests raise,
    [test_sam_endpoint] returns one result per endpoint of its list, in
    the order of the list, after sending one request to each, in that
    order; every request asks for one record at offset 0 of audit year
    2024 and carries the given key, or [DEMO_KEY] when no key or an
    empty key was given. *)
Theorem probe_covers_every_endpoint server api_key sent :
  let run := TestEndpoints.test_sam_endpoint server api_key sent in
  let key := TestEndpoints.key_or_demo api_key in
  map (fun r => snd (fst r)) (fst run) = TestEndpoints.base_urls
  /\ length (fst run) = 4%nat
  /\ snd run = sent ++ map (probe_request_for key) TestEndpoints.base_urls
  /\ key <> ""
  /\ (api_key = None \/ api_key = Some "" -> key = "DEMO_KEY")
  /\ (forall k, api_key = Some k -> k <> "" -> key = k).
Proof.
  intros run key.
  destruct (probe_each_spec server key TestEndpoints.base_urls [] sent)
    as (Hurls & Hsent).
  change (map (fun r : bool * string * TestEndpoints.payload => snd (fst r)) []
          ++ TestEndpoints.base_urls)
    with TestEndpoints.base_urls in Hurls.
  split; [exact Hurls|]. split.
  { unfold run, TestEndpoints.test_sam_endpoint. fold key.
    rewrite <- (length_map (fun r => snd (fst r))), Hurls. reflexivity. }
  split; [exact Hsent|].
  unfold key, TestEndpoints.key_or_demo. split; [|split].
  - destruct api_key as [k|]; [|discriminate].
    destruct (String.eqb k "") eqn:Hk; [discriminate|].
    by apply String.eqb_neq in Hk.
  - by intros [-> | ->].
  - intros k -> Hk. apply String.eqb_neq in Hk. by rewrite Hk.
Qed.

Lemma probe_each_results server key :
  (forall hist req, server hist req = server [] req) ->
  forall urls results sent,
    fst (TestEndpoints.probe_each server key urls results sent)
    = results ++ map (fun url =>
                        fst (TestEndpoints.probe server key url [])) urls.
Proof.
  intros Hstateless. induction urls as [|url urls IH]; intros results sent;
    cbn [TestEndpoints.probe_each map].
  - by rewrite app_nil_r.
  - assert (fst (TestEndpoints.probe server key url sent)
            = fst (TestEndpoints.probe server key url [])) as Hsame.
    { unfold TestEndpoints.probe. cbn [fst]. by rewrite (Hstateless sent). }
    destruct (TestEndpoints.probe server key url sent) as [result sent1].
    cbn [fst] in Hsame. subst result.
    rewrite IH, <- app_assoc. reflexivity.
Qed.

(** X19: for endpoints whose answer does not depend on earlier requests,
    [main] counts as successful exactly the endpoints that answer with
    status 200 and a body that decodes; an endpoint whose request
    raises, that answers with another status, or whose body does not
    decode is counted as failed.  The total it reports is 4, and the
    endpoints whose data it prints are the successful ones in the order
    of the list. *)
Theorem probe_counts_answering_endpoints server sent :
  (forall hist req, server hist req = server [] req) ->
  let ok url := answers (server [] (probe_request_for "DEMO_KEY" url)) in
  TestEndpoints.main server sent
  = ((length (List.filter ok TestEndpoints.base_urls), 4%nat),
     List.filter ok TestEndpoints.base_urls,
     sent ++ map (probe_request_for "DEMO_KEY") TestEndpoints.base_urls).
Proof.
  intros Hstateless ok. unfold TestEndpoints.main.
  pose proof (probe_each_results server "DEMO_KEY" Hstateless
                TestEndpoints.base_urls [] sent) as Hres.
  destruct (probe_each_spec server "DEMO_KEY" TestEndpoints.base_urls [] sent)
    as (_ & Hsent).
  unfold TestEndpoints.test_sam_endpoint. cbn [TestEndpoints.key_or_demo].
  destruct (TestEndpoints.probe_each server "DEMO_KEY" TestEndpoints.base_urls
                                     [] sent) as [results sent'].
  cbn [fst snd] in Hres, Hsent. subst results sent'. cbn [app].
  assert (forall urls,
             map (fun r => snd (fst r))
                 (List.filter (fun r => fst (fst r))
                    (map (fun url =>
                            fst (TestEndpoints.probe server "DEMO_KEY" url []))
                         urls))
             = List.filter ok urls) as Hfilter.
  { induction urls as [|url urls IH]; [reflexivity|]. cbn [map List.filter].
    pose proof (probe_flag server "DEMO_KEY" url []) as Hflag.
    destruct (probe_effect server "DEMO_KEY" url []) as (Hurl & _).
    destruct (fst (TestEndpoints.probe server "DEMO_KEY" url []))
      as [[flag u] pl].
    cbn [fst snd] in Hflag, Hurl |- *. subst flag u. fold (ok url).
    destruct (ok url); cbn [map]; by rewrite IH. }
  rewrite (Hfilter TestEndpoints.base_urls).
  rewrite <- (length_map (fun r : bool * string * TestEndpoints.payload =>
                            snd (fst r)) (List.filter _ _)).
  rewrite (Hfilter TestEndpoints.base_urls), length_map.
  reflexivity.
Qed.

Lemma probe_counts_answering_endpoints_witness :
  (forall hist req, TestEndpoints.flaky hist req = TestEndpoints.flaky [] req)
  /\ fst (fst (TestEndpoints.main TestEndpoints.flaky [])) = (1%nat, 4%nat)
  /\ snd (fst (TestEndpoints.main TestEndpoints.flaky []))
     = ["https://api.sam.gov/data-services/v3/fac/single_audits/general"].
Proof.
  assert (forall hist req,
             TestEndpoints.flaky hist req = TestEndpoints.flaky [] req)
    as Hstateless.
  { reflexivity. }
  split; [exact Hstateless|].
  rewrite (probe_counts_answering_endpoints TestEndpoints.flaky [] Hstateless).
  split; vm_compute; reflexivity.
Defined.

(** ** The join chain of the merge *)

Lemma length_flat_map_ge {A B} (f : A -> list B) (l : list A) :
  (forall x, f x <> []) -> (length l <= length (flat_map f l))%nat.
Proof.
  intros Hne. induction l as [|x l IH]; simpl; [lia|].
  rewrite length_app. specialize (Hne x).
  destruct (f x); [done|]. simpl. lia.
Qed.

Lemma join_row_not_empty `{Libs : Libraries} ty i j r lrow :
  join_row ty i j r lrow <> [].
Proof.
  unfold join_row. by destruct (matches ty i j r lrow).
Qed.

Lemma left_join_nrows `{Libs : Libraries} k l r res :
  left_join k l r = inr res -> (nrows l <= nrows res)%nat.
Proof.
  intros (ty & i & j & _ & _ & ->)%left_join_inr. unfold nrows. simpl.
  apply length_flat_map_ge. intros lrow. apply join_row_not_empty.
Qed.

Lemma eval_joins_nrows `{Libs : Libraries} tables js :
  forall acc res,
    eval_joins tables acc js = inr res -> (nrows acc <= nrows res)%nat.
Proof.
  induction js as [|[t k] js IH]; intros acc res; simpl.
  - by intros [= <-].
  - destruct (table_ref tables t) as [e|r]; [discriminate|].
    destruct (left_join k acc r) as [e|acc'] eqn:Hjoin; [discriminate|].
    intros Hrest. apply left_join_nrows in Hjoin. apply IH in Hrest. lia.
Qed.

(** X20: the select statement that [merge_data] writes into its [WITH]
    clause reads as the anchor relation left-joined with each further
    source in the order configured, all on the configured key; wherever
    the store evaluates that statement, the anchor relation is there,
    the result has at least as many rows as the anchor, and every anchor
    row is the beginning of a row of the result; with the anchor as the
    only source the result is the anchor relation itself. *)
Theorem join_chain_keeps_anchor_rows `{Libs : Libraries} tables t0 rest k res :
  eval_select tables (incremental_join t0 rest k) = inr res ->
  parse_select (incremental_join_text t0 rest k ++ [RPAREN])
  = Some (incremental_join t0 rest k, [RPAREN])
  /\ exists anchor,
      tables !! t0 = Some anchor
      /\ (nrows anchor <= nrows res)%nat
      /\ (forall row, row ∈ tuples anchor -> exists ext, row ++ ext ∈ tuples res)
      /\ (rest = [] -> res = anchor).
Proof.
  intros Heval. split; [apply parse_incremental_join_text|].
  unfold eval_select, incremental_join, table_ref in Heval. simpl in Heval.
  destruct (tables !! t0) as [anchor|]; [|discriminate].
  exists anchor. split; [done|]. split; [by eapply eval_joins_nrows|].
  split; [by eapply eval_joins_keeps_anchor|].
  intros ->. simpl in Heval. by injection Heval.
Qed.

Lemma join_chain_keeps_anchor_rows_witness :
  let tables : gmap string relation :=
    <["findings" := {| schema := ["report_id"; "finding"];
                       types := [VARCHAR; VARCHAR];
                       tuples := [[VStr "old1"; VStr "f1"];
                                  [VStr "old1"; VStr "f2"]] |}]>
      {["general" := stale_relation]} in
  let res := {| schema := ["report_id"; "finding"];
                types := [VARCHAR; VARCHAR];
                tuples := [[VStr "old1"; VStr "f1"]; [VStr "old1"; VStr "f2"];
                           [VStr "old2"; VNull]] |} in
  eval_select tables (incremental_join "general" ["findings"] "report_id")
  = inr res
  /\ exists anchor,
      tables !! "general" = Some anchor
      /\ (nrows anchor <= nrows res)%nat.
Proof.
  intros tables res.
  assert (eval_select tables (incremental_join "general" ["findings"] "report_id")
          = inr res) as Heval.
  { vm_compute. reflexivity. }
  split; [exact Heval|].
  destruct (join_chain_keeps_anchor_rows tables "general" ["findings"]
              "report_id" res Heval) as (_ & anchor & Hanchor & Hrows & _).
  exists anchor. split; [exact Hanchor | exact Hrows].
Defined.
